(** * FindCare API: the /map_feed request pipeline

    A shallow embedding of [server.js]: the helpers [isZip], [parseLocation]
    and [esc], and the [/map_feed] handler (limit normalisation, parameter
    binding, item formatting, response envelopes), followed by the
    properties of the specification that concern them.

    Strings.  A JavaScript string is a sequence of UTF-16 code units.  The
    embedding uses [string], one [ascii] per code unit, and so covers the
    strings whose code units are below 256.  White space, digits, the
    comma, the five characters rewritten by [esc] and the characters read
    by [parseInt] are treated exactly on that range.  [toUpperCase] is
    exact on that range except for three code units, 181 (micro sign), 223
    (sharp s) and 255 (y with diaeresis): their upper-case forms are not
    single code units below 256, and the model leaves them unchanged. *)

From Stdlib Require Import Bool Arith ZArith List FinFun Lia.
From Stdlib Require Import Strings.Ascii Strings.String.
From Stdlib Require Import Numbers.DecimalString Numbers.DecimalPos Numbers.DecimalN.
Import ListNotations.

Local Open Scope string_scope.
Local Open Scope Z_scope.

(** ** JavaScript built-ins used by the source *)

Module JS.

(** Truthiness of a possibly absent string: [undefined], [null] and the
    empty string are falsy, every other string is truthy. *)
Definition truthy (v : option string) : bool :=
  match v with
  | Some (String _ _) => true
  | _ => false
  end.

(** [v || d] where [d] is a string. *)
Definition or_str (v : option string) (d : string) : string :=
  match v with
  | Some (String c s) => String c s
  | _ => d
  end.

(** [v || null]. *)
Definition or_null (v : option string) : option string :=
  match v with
  | Some (String c s) => Some (String c s)
  | _ => None
  end.

(** White space as [String.prototype.trim] and [parseInt] see it, on code
    units below 256: TAB, LF, VT, FF, CR, SPACE and NO-BREAK SPACE. *)
Definition is_ws (c : ascii) : bool :=
  let n := nat_of_ascii c in
  ((9 <=? n) && (n <=? 13))%nat || (n =? 32)%nat || (n =? 160)%nat.

(** The class [\d] of a regular expression without the unicode flag. *)
Definition is_digit (c : ascii) : bool :=
  let n := nat_of_ascii c in ((48 <=? n) && (n <=? 57))%nat.

Fixpoint trimStart (s : string) : string :=
  match s with
  | String c s' => if is_ws c then trimStart s' else s
  | EmptyString => EmptyString
  end.

Fixpoint trimEnd (s : string) : string :=
  match s with
  | EmptyString => EmptyString
  | String c s' =>
      match trimEnd s' with
      | EmptyString => if is_ws c then EmptyString else String c EmptyString
      | t => String c t
      end
  end.

(** [s.trim()] *)
Definition trim (s : string) : string := trimEnd (trimStart s).

(** [s.slice(0, n)] for [0 <= n]: the first [n] code units, or all of [s]
    when it is shorter. *)
Fixpoint slice0 (n : nat) (s : string) : string :=
  match n, s with
  | S n', String c s' => String c (slice0 n' s')
  | _, _ => EmptyString
  end.

(** The upper-case form of a code unit below 256: the letters a to z, and
    the accented letters 224 to 254 other than the division sign 247, are
    32 above their capitals. *)
Definition upper_char (c : ascii) : ascii :=
  let n := nat_of_ascii c in
  if ((97 <=? n) && (n <=? 122))%nat
     || ((224 <=? n) && (n <=? 254) && negb (n =? 247))%nat
  then ascii_of_nat (n - 32) else c.

(** [s.toUpperCase()] *)
Fixpoint toUpperCase (s : string) : string :=
  match s with
  | EmptyString => EmptyString
  | String c s' => String (upper_char c) (toUpperCase s')
  end.

(** [s.split(sep)] for a one-character separator: the pieces between the
    separators, in order; always at least one piece. *)
Fixpoint split (sep : ascii) (s : string) : list string :=
  match s with
  | EmptyString => [EmptyString]
  | String c s' =>
      if Ascii.eqb c sep then EmptyString :: split sep s'
      else match split sep s' with
           | p :: ps => String c p :: ps
           | [] => [String c EmptyString]
           end
  end.

(** [s.replace(/c/g, r)] for a one-character pattern. *)
Fixpoint replace_all (c : ascii) (r : string) (s : string) : string :=
  match s with
  | EmptyString => EmptyString
  | String x s' =>
      if Ascii.eqb x c then r ++ replace_all c r s'
      else String x (replace_all c r s')
  end.

(** [parts.join(sep)] *)
Fixpoint join (sep : string) (parts : list string) : string :=
  match parts with
  | [] => EmptyString
  | [p] => p
  | p :: ps => p ++ sep ++ join sep ps
  end.

(** [String(n)] for an integer [n] with [0 <= n < 10^21]: its decimal
    digits. *)
Definition string_of_index (n : Z) : string :=
  NilZero.string_of_uint (N.to_uint (Z.to_N n)).

(** *** [parseInt(s)] with no radix

    The integer read from [s], or [None] for [NaN].  Leading white space is
    skipped, one sign is read, a [0x] or [0X] prefix selects radix 16, and
    the longest run of digits of the radix is the value; no digit gives
    [NaN].  The value is the mathematical integer; JavaScript rounds it to
    the nearest double (possibly an infinity).  That rounding is monotone
    and keeps every integer of magnitude at most 2^53, so it changes
    neither the truthiness of the value nor its [Math.min] with 200 and
    [Math.max] with 1, which is all the handler computes from it.  The
    value read is the value JavaScript returns whenever its magnitude is
    at most 2^53. *)

Definition digit_value (radix : Z) (c : ascii) : option Z :=
  let n := Z.of_nat (nat_of_ascii c) in
  let v :=
    if (48 <=? n) && (n <=? 57) then Some (n - 48)
    else if (97 <=? n) && (n <=? 122) then Some (n - 87)
    else if (65 <=? n) && (n <=? 90) then Some (n - 55)
    else None in
  match v with
  | Some d => if d <? radix then Some d else None
  | None => None
  end.

(** The value of the longest prefix of radix digits, started from the
    accumulator [acc]; [seen] tells whether a digit was read. *)
Fixpoint read_digits (radix : Z) (seen : bool) (acc : Z) (s : string)
  : option Z :=
  match s with
  | String c s' =>
      match digit_value radix c with
      | Some d => read_digits radix true (acc * radix + d) s'
      | None => if seen then Some acc else None
      end
  | EmptyString => if seen then Some acc else None
  end.

Definition strip_sign (s : string) : Z * string :=
  match s with
  | String "-" s' => (-1, s')
  | String "+" s' => (1, s')
  | _ => (1, s)
  end.

Definition strip_hex_prefix (s : string) : Z * string :=
  match s with
  | String "0" (String "x" s') => (16, s')
  | String "0" (String "X" s') => (16, s')
  | _ => (10, s)
  end.

Definition parseInt (s : string) : option Z :=
  let (sign, s1) := strip_sign (trimStart s) in
  let (radix, s2) := strip_hex_prefix s1 in
  match read_digits radix false 0 s2 with
  | Some m => Some (sign * m)
  | None => None
  end.

End JS.

(** ** Regular expressions

    [RegExp.prototype.test] for an anchored pattern [/^r$/]: the whole
    string must match [r].  Matching is by derivatives. *)

Module Re.

Inductive regex : Type :=
| Void                                  (* matches nothing *)
| Eps                                   (* the empty string *)
| Class (p : ascii -> bool)             (* one code unit of a class *)
| Seq (r1 r2 : regex)
| Alt (r1 r2 : regex).

Definition Chr (c : ascii) : regex := Class (Ascii.eqb c).
Definition Opt (r : regex) : regex := Alt r Eps.            (* r? *)
Fixpoint Rep (n : nat) (r : regex) : regex :=               (* r{n} *)
  match n with
  | O => Eps
  | S n' => Seq r (Rep n' r)
  end.

Fixpoint nullable (r : regex) : bool :=
  match r with
  | Void => false
  | Eps => true
  | Class _ => false
  | Seq r1 r2 => nullable r1 && nullable r2
  | Alt r1 r2 => nullable r1 || nullable r2
  end.

Definition mkSeq (r1 r2 : regex) : regex :=
  match r1 with
  | Void => Void
  | Eps => r2
  | _ => Seq r1 r2
  end.

Definition mkAlt (r1 r2 : regex) : regex :=
  match r1, r2 with
  | Void, _ => r2
  | _, Void => r1
  | _, _ => Alt r1 r2
  end.

Fixpoint deriv (c : ascii) (r : regex) : regex :=
  match r with
  | Void => Void
  | Eps => Void
  | Class p => if p c then Eps else Void
  | Seq r1 r2 =>
      if nullable r1
      then mkAlt (mkSeq (deriv c r1) r2) (deriv c r2)
      else mkSeq (deriv c r1) r2
  | Alt r1 r2 => mkAlt (deriv c r1) (deriv c r2)
  end.

(** [/^r$/.test(s)] *)
Fixpoint test (r : regex) (s : string) : bool :=
  match s with
  | EmptyString => nullable r
  | String c s' => test (deriv c r) s'
  end.

End Re.

(** ** Helper functions of [server.js] *)

(** The pattern of [isZip]: [/^\d{5}(-\d{4})?$/]. *)
Definition zip_pattern : Re.regex :=
  Re.Seq (Re.Rep 5 (Re.Class JS.is_digit))
         (Re.Opt (Re.Seq (Re.Chr "-") (Re.Rep 4 (Re.Class JS.is_digit)))).

(** [function isZip(s)]: [(s || "").trim()] tested against the pattern. *)
Definition isZip (s : option string) : bool :=
  Re.test zip_pattern (JS.trim (JS.or_str s "")).

(** The three shapes of object [parseLocation] returns: [{}], [{ zip5 }]
    and [{ city, state }], where [city] and [state] are a string or
    [null]. *)
Inductive ParsedLocation : Type :=
| LocNone
| LocZip (zip5 : string)
| LocCityState (city state : option string).

(** [function parseLocation(input)] *)
Definition parseLocation (input : option string) : ParsedLocation :=
  match input with
  | None => LocNone
  | Some EmptyString => LocNone
  | Some input =>
      let raw := JS.trim input in
      if isZip (Some raw) then LocZip (JS.slice0 5 raw)
      else
        let parts := map JS.trim (JS.split "," raw) in
        let cityPart := nth_error parts 0 in
        let statePart := nth_error parts 1 in
        let city := JS.or_null cityPart in
        let state :=
          JS.or_null
            (Some (JS.slice0 2 (JS.toUpperCase (JS.or_str statePart "")))) in
        LocCityState city state
  end.

(** Reading a property of the returned object: an absent property reads as
    [undefined], which like [null] is [None] here. *)
Definition loc_zip5 (l : ParsedLocation) : option string :=
  match l with LocZip z => Some z | _ => None end.
Definition loc_city (l : ParsedLocation) : option string :=
  match l with LocCityState c _ => c | _ => None end.
Definition loc_state (l : ParsedLocation) : option string :=
  match l with LocCityState _ s => s | _ => None end.

(** The double quote character, and the one-character string of it. *)
Definition dquote : ascii := "034".
Definition DQ : string := String dquote EmptyString.

(** [function esc(s)]: [String(s || "")] followed by five global
    replacements, in the order of the source. *)
Definition esc (s : option string) : string :=
  JS.replace_all "'" "&#39;"
    (JS.replace_all dquote "&quot;"
      (JS.replace_all ">" "&gt;"
        (JS.replace_all "<" "&lt;"
          (JS.replace_all "&" "&amp;" (JS.or_str s ""))))).

(** ** The [/map_feed] handler *)

(** [req.query]: the four parameters the handler reads, each a string or
    absent. *)
Record RawQuery : Type := mkRawQuery {
  rq_q : option string;
  rq_category : option string;
  rq_location : option string;
  rq_limit : option string
}.

(** The values bound by [request.input]: the filter handed to the query. *)
Record FilterSpec : Type := mkFilterSpec {
  fs_limit : Z;
  fs_category : option string;
  fs_q : option string;
  fs_zip5 : option string;
  fs_city : option string;
  fs_state : option string
}.

(** [n || d] for a number: [NaN] and [0] are falsy. *)
Definition num_or (v : option Z) (d : Z) : Z :=
  match v with
  | None => d
  | Some 0 => d
  | Some n => n
  end.

(** [const { ..., limit = "20" } = req.query;
     const lim = Math.max(1, Math.min(parseInt(limit) || 20, 200));] *)
Definition lim_of (limit : option string) : Z :=
  let limit := match limit with Some s => s | None => "20" end in
  Z.max 1 (Z.min (num_or (JS.parseInt limit) 20) 200).

(** The six [request.input] bindings. *)
Definition build (rq : RawQuery) : FilterSpec :=
  let lim := lim_of (rq_limit rq) in
  let loc := parseLocation (rq_location rq) in
  {| fs_limit := lim;
     fs_category := JS.or_null (rq_category rq);
     fs_q := match rq_q rq with
             | Some (String c s) => Some ("%" ++ String c s ++ "%")
             | _ => None
             end;
     fs_zip5 := JS.or_null (loc_zip5 loc);
     fs_city := JS.or_null (loc_city loc);
     fs_state := JS.or_null (loc_state loc) |}.

(** One element of [items]. *)
Record FeedItem : Type := mkFeedItem {
  id : Z;
  title : string;
  summary : string;
  address : string;
  latitude : string;
  longitude : string;
  type : string;
  subtype : string;
  pinIconUrl : string;
  pinIconColor : string;
  pinIconWidth : Z;
  pinIconHeight : Z;
  url : string;
  thumbnail : string;
  smallThumbnail : string;
  largeThumbnail : string;
  content : string
}.

(** The body passed to [res.json]: the success envelope or the error
    envelope of the [catch] block. *)
Inductive Body : Type :=
| FeedOk (items : list FeedItem) (next_page : option string)
         (generated_in : string) (stat : string)
| FeedError (stat : string) (message : string).

Record HttpResponse : Type := mkHttpResponse {
  status : Z;
  body : Body
}.

Definition body_items (b : Body) : option (list FeedItem) :=
  match b with FeedOk its _ _ _ => Some its | FeedError _ _ => None end.
Definition body_stat (b : Body) : string :=
  match b with FeedOk _ _ _ st => st | FeedError st _ => st end.
Definition body_message (b : Body) : option string :=
  match b with FeedOk _ _ _ _ => None | FeedError _ m => Some m end.
Definition body_generated_in (b : Body) : option string :=
  match b with FeedOk _ _ g _ => Some g | FeedError _ _ => None end.

(** A thrown value as the [catch] block reads it: its [message], which may
    be missing. *)
Record JsError : Type := mkJsError { err_message : option string }.

(** A computation inside the [try] block: a value, or a throw that leaves
    the block. *)
Inductive attempt (A : Type) : Type :=
| Done (a : A)
| Thrown (e : JsError).
Arguments Done {A} a.
Arguments Thrown {A} e.

Definition bind {A B} (m : attempt A) (k : A -> attempt B) : attempt B :=
  match m with
  | Done a => k a
  | Thrown e => Thrown e
  end.

Notation "x <- m ;; k" := (bind m (fun x => k))
  (at level 61, m at next level, right associativity).

(** [array.map((r, idx) => f(r, idx))], indices counted from [i]. *)
Fixpoint map_index {A B : Type} (f : A -> nat -> B) (i : nat) (l : list A)
  : list B :=
  match l with
  | [] => []
  | a :: l' => f a i :: map_index f (S i) l'
  end.

Section Handler.

(** The numeric columns [Latitude] and [Longitude] arrive as JavaScript
    numbers; [String(x)] on them is the engine's number formatting, taken
    here as given. *)
Variable number : Type.
Variable String_of_number : number -> string.

(** One row of [result.recordset]. *)
Record ProviderRecord : Type := mkProviderRecord {
  Category : option string;
  Provider_Organization_Name : option string;
  Provider_Practice_City : option string;
  Provider_Practice_State : option string;
  Provider_Practice_Zip : option string;
  Full_Address : option string;
  Latitude : number;
  Longitude : number;
  Healthcare_Provider_Taxonomy_Code_1 : option string
}.

(** What the data store does for the handler: [await poolPromise], then
    [await request.query(...)] on the bound parameters; either may
    throw.  [recordset] may be missing from the result. *)
Record Upstream : Type := mkUpstream {
  connect : attempt unit;
  run_query : FilterSpec -> attempt (option (list ProviderRecord))
}.

Definition item_title (r : ProviderRecord) : string :=
  JS.or_str (Provider_Organization_Name r) "Unnamed Facility".

(** [[city, state].filter(Boolean).join(", ")] *)
Definition item_citySt (r : ProviderRecord) : string :=
  JS.join ", "
    (map (fun v => JS.or_str v "")
       (filter JS.truthy
          [Provider_Practice_City r; Provider_Practice_State r])).

Definition item_summary (r : ProviderRecord) : string :=
  let citySt := item_citySt r in
  JS.or_str (Category r) "Healthcare Facility"
  ++ (if JS.truthy (Some citySt) then " in " ++ citySt else "").

Definition facility_url (idx : nat) : string :=
  "https://findcare.dev/facility/" ++ JS.string_of_index (Z.of_nat idx + 1).

Definition item_content (r : ProviderRecord) (idx : nat) : string :=
  "<div><strong>" ++ esc (Some (item_title r)) ++ "</strong><br>"
  ++ esc (Some (JS.or_str (Category r) "")) ++ " - "
  ++ esc (Some (item_citySt r))
  ++ "<br><a href=" ++ DQ ++ "https://findcare.dev/facility/"
  ++ JS.string_of_index (Z.of_nat idx + 1)
  ++ DQ ++ " target=" ++ DQ ++ "_blank" ++ DQ ++ ">View Details</a></div>".

(** The callback of [recordset.map]. *)
Definition format_item (r : ProviderRecord) (idx : nat) : FeedItem :=
  {| id := Z.of_nat idx + 1;
     title := item_title r;
     summary := item_summary r;
     address := JS.or_str (Full_Address r) "";
     latitude := JS.trim (String_of_number (Latitude r));
     longitude := JS.trim (String_of_number (Longitude r));
     type := "maps";
     subtype := "custom";
     pinIconUrl := "https://fcare.io/files/findcare_map_icon_red.png";
     pinIconColor := "#0074D9";
     pinIconWidth := 150;
     pinIconHeight := 300;
     url := facility_url idx;
     thumbnail := "https://findcare.dev/icons/default.png";
     smallThumbnail := "https://findcare.dev/icons/default.png";
     largeThumbnail := "https://findcare.dev/icons/default.png";
     content := item_content r idx |}.

(** [(result.recordset || []).map(...)] *)
Definition format_items (recordset : option (list ProviderRecord))
  : list FeedItem :=
  map_index format_item 0%nat
    (match recordset with Some rows => rows | None => [] end).

(** The success envelope. *)
Definition assemble (items : list FeedItem) : HttpResponse :=
  {| status := 200; body := FeedOk items None "0.01s" "ok" |}.

(** The [catch] block. *)
Definition error_response (e : JsError) : HttpResponse :=
  {| status := 500;
     body := FeedError "error"
               (JS.or_str (err_message e) "Internal server error") |}.

(** The body of the [try] block, up to the call of [res.json]. *)
Definition try_map_feed (db : Upstream) (rq : RawQuery)
  : attempt HttpResponse :=
  let spec := build rq in
  _ <- connect db ;;
  recordset <- run_query db spec ;;
  Done (assemble (format_items recordset)).

(** [app.get("/map_feed", async (req, res) => { try ... catch ... })] *)
Definition map_feed (db : Upstream) (rq : RawQuery) : HttpResponse :=
  match try_map_feed db rq with
  | Done resp => resp
  | Thrown e => error_response e
  end.

End Handler.

Arguments mkProviderRecord {number}.
Arguments Category {number}.
Arguments Provider_Organization_Name {number}.
Arguments Provider_Practice_City {number}.
Arguments Provider_Practice_State {number}.
Arguments Provider_Practice_Zip {number}.
Arguments Full_Address {number}.
Arguments Latitude {number}.
Arguments Longitude {number}.
Arguments Healthcare_Provider_Taxonomy_Code_1 {number}.
Arguments mkUpstream {number}.
Arguments connect {number}.
Arguments run_query {number}.
Arguments item_title {number}.
Arguments item_citySt {number}.
Arguments item_summary {number}.
Arguments item_content {number}.
Arguments format_item {number}.
Arguments format_items {number}.
Arguments try_map_feed {number}.
Arguments map_feed {number}.

(** ** Vocabulary of the properties

    The definitions below are not part of the program.  They say, in terms
    independent of how the source computes, what the properties are about:
    the form of a postal code, the per-character escaping of text, the
    pieces of a location around its commas. *)

(** [n] digits, then a string accepted by [k]. *)
Fixpoint digits_then (n : nat) (k : string -> bool) (s : string) : bool :=
  match n with
  | O => k s
  | S n' =>
      match s with
      | String c s' => JS.is_digit c && digits_then n' k s'
      | EmptyString => false
      end
  end.

Definition is_empty (s : string) : bool :=
  match s with EmptyString => true | _ => false end.

(** Five digits, alone or followed by a dash and four digits. *)
Definition zip_shape (s : string) : bool :=
  digits_then 5
    (fun rest =>
       match rest with
       | EmptyString => true
       | String c r => Ascii.eqb "-" c && digits_then 4 is_empty r
       end) s.

Fixpoint all_digits (s : string) : bool :=
  match s with
  | EmptyString => true
  | String c s' => JS.is_digit c && all_digits s'
  end.

Definition five_digits (s : string) : bool :=
  (String.length s =? 5)%nat && all_digits s.

(** The ASCII lower-case letters a to z, and the ASCII capitals. *)
Definition is_lower (c : ascii) : bool :=
  let n := nat_of_ascii c in ((97 <=? n) && (n <=? 122))%nat.
Definition is_upper (c : ascii) : bool :=
  let n := nat_of_ascii c in ((65 <=? n) && (n <=? 90))%nat.

Fixpoint no_lower (s : string) : bool :=
  match s with
  | EmptyString => true
  | String c s' => negb (is_lower c) && no_lower s'
  end.

Definition two_upper_letters (s : string) : bool :=
  match s with
  | String a (String b EmptyString) => is_upper a && is_upper b
  | _ => false
  end.

(** The entity of a character: one of the five replacements, or the
    character itself. *)
Definition entity (c : ascii) : string :=
  if Ascii.eqb c "&" then "&amp;"
  else if Ascii.eqb c "<" then "&lt;"
  else if Ascii.eqb c ">" then "&gt;"
  else if Ascii.eqb c dquote then "&quot;"
  else if Ascii.eqb c "'" then "&#39;"
  else String c EmptyString.

(** Escaping in one pass: every character replaced by its entity. *)
Fixpoint escape_text (s : string) : string :=
  match s with
  | EmptyString => EmptyString
  | String c s' => entity c ++ escape_text s'
  end.

(** The characters that open or close markup or an attribute value. *)
Definition is_markup (c : ascii) : bool :=
  Ascii.eqb c "<" || Ascii.eqb c ">" || Ascii.eqb c dquote || Ascii.eqb c "'".

(** [c] occurs in [s]. *)
Fixpoint occurs (c : ascii) (s : string) : bool :=
  match s with
  | EmptyString => false
  | String x s' => Ascii.eqb x c || occurs c s'
  end.

(** [p] occurs in [s] as a substring. *)
Fixpoint contains (p s : string) : bool :=
  String.prefix p s ||
  match s with
  | EmptyString => false
  | String _ s' => contains p s'
  end.

(** The part of [s] before its first [sep] (all of [s] when it has none),
    and the part after it (absent when it has none). *)
Fixpoint before_sep (sep : ascii) (s : string) : string :=
  match s with
  | EmptyString => EmptyString
  | String c s' =>
      if Ascii.eqb c sep then EmptyString else String c (before_sep sep s')
  end.

Fixpoint after_sep (sep : ascii) (s : string) : option string :=
  match s with
  | EmptyString => None
  | String c s' => if Ascii.eqb c sep then Some s' else after_sep sep s'
  end.

(** The text before the first comma, trimmed; and the text between the
    first comma and the second (or the end), trimmed, empty when there is
    no comma. *)
Definition city_piece (raw : string) : string :=
  JS.trim (before_sep "," raw).
Definition state_piece (raw : string) : string :=
  match after_sep "," raw with
  | Some r => JS.trim (before_sep "," r)
  | None => EmptyString
  end.

(** The city/state branch as the specification words it: one split, at the
    first comma, into a left part and a right part.  The right part is
    taken trimmed, as the specification's example of a city followed by a
    comma, a space and a lower-case state requires. *)
Definition first_comma_split (raw : string) : ParsedLocation :=
  LocCityState
    (JS.or_null (Some (JS.trim (before_sep "," raw))))
    (JS.or_null
       (Some (JS.slice0 2
                (JS.toUpperCase
                   (JS.trim (JS.or_str (after_sep "," raw) "")))))).

(** The string fields of a filter. *)
Definition string_fields (f : FilterSpec) : list (option string) :=
  [fs_category f; fs_q f; fs_zip5 f; fs_city f; fs_state f].

(** An upstream that connects and answers every query. *)
Definition answering {number : Type}
  (rows : FilterSpec -> option (list (ProviderRecord number)))
  : Upstream number :=
  mkUpstream (Done tt) (fun spec => Done (rows spec)).

(** The five characters [esc] rewrites. *)
Definition is_special (c : ascii) : bool :=
  Ascii.eqb c "&" || is_markup c.

Fixpoint no_special (s : string) : bool :=
  match s with
  | EmptyString => true
  | String c s' => negb (is_special c) && no_special s'
  end.

(** Reading escaped text back: each of the five entities stands for its
    character, any other character for itself. *)
Fixpoint unescape (s : string) : string :=
  match s with
  | String "&" (String "a" (String "m" (String "p" (String ";" r)))) =>
      String "&" (unescape r)
  | String "&" (String "l" (String "t" (String ";" r))) =>
      String "<" (unescape r)
  | String "&" (String "g" (String "t" (String ";" r))) =>
      String ">" (unescape r)
  | String "&" (String "q" (String "u" (String "o" (String "t"
      (String ";" r))))) =>
      String dquote (unescape r)
  | String "&" (String "#" (String "3" (String "9" (String ";" r)))) =>
      String "'" (unescape r)
  | String c r => String c (unescape r)
  | EmptyString => EmptyString
  end.

(** Escaped text in good form: a sequence of entities and of characters
    that are none of the five; so no ampersand stands alone. *)
Fixpoint well_escaped (s : string) : bool :=
  match s with
  | String "&" (String "a" (String "m" (String "p" (String ";" r)))) =>
      well_escaped r
  | String "&" (String "l" (String "t" (String ";" r))) => well_escaped r
  | String "&" (String "g" (String "t" (String ";" r))) => well_escaped r
  | String "&" (String "q" (String "u" (String "o" (String "t"
      (String ";" r))))) => well_escaped r
  | String "&" (String "#" (String "3" (String "9" (String ";" r)))) =>
      well_escaped r
  | String c r => negb (is_special c) && well_escaped r
  | EmptyString => true
  end.

(** The value of a decimal numeral read from its most significant digit,
    started from [acc]. *)
Fixpoint numeral_value (acc : Z) (d : Decimal.uint) : Z :=
  match d with
  | Decimal.Nil => acc
  | Decimal.D0 d' => numeral_value (acc * 10 + 0) d'
  | Decimal.D1 d' => numeral_value (acc * 10 + 1) d'
  | Decimal.D2 d' => numeral_value (acc * 10 + 2) d'
  | Decimal.D3 d' => numeral_value (acc * 10 + 3) d'
  | Decimal.D4 d' => numeral_value (acc * 10 + 4) d'
  | Decimal.D5 d' => numeral_value (acc * 10 + 5) d'
  | Decimal.D6 d' => numeral_value (acc * 10 + 6) d'
  | Decimal.D7 d' => numeral_value (acc * 10 + 7) d'
  | Decimal.D8 d' => numeral_value (acc * 10 + 8) d'
  | Decimal.D9 d' => numeral_value (acc * 10 + 9) d'
  end.

(** The types declared for the bound parameters in [request.input]: the
    range of [sql.Int], and the lengths of [sql.VarChar(5)] for zip5 and
    [sql.VarChar(2)] for state. *)
Definition sql_Int_min : Z := - 2147483648.
Definition sql_Int_max : Z := 2147483647.
Definition zip5_declared_length : nat := 5.
Definition state_declared_length : nat := 2.

(** A bound value fits a declared length: it is null or not longer. *)
Definition fits (n : nat) (v : option string) : bool :=
  match v with
  | Some s => (String.length s <=? n)%nat
  | None => true
  end.

(** ** Sample evaluations *)

Example parseInt_samples :
  JS.parseInt "20" = Some 20 /\ JS.parseInt "  -7px" = Some (-7) /\
  JS.parseInt "0x1f" = Some 31 /\ JS.parseInt "abc" = None /\
  JS.parseInt "" = None /\ JS.parseInt "0x" = None /\
  JS.parseInt "+012" = Some 12 /\ JS.parseInt "- 3" = None.
Proof. repeat split; reflexivity. Qed.

Example split_samples :
  JS.split "," "" = [""] /\ JS.split "," "a,b" = ["a"; "b"] /\
  JS.split "," "a," = ["a"; ""] /\ JS.split "," ",a,,b" = [""; "a"; ""; "b"].
Proof. repeat split; reflexivity. Qed.

Example trim_samples :
  JS.trim "  a b  " = "a b" /\ JS.trim "   " = "" /\ JS.trim "x" = "x" /\
  JS.toUpperCase "tx-9z" = "TX-9Z" /\ JS.slice0 2 "TEXAS" = "TE" /\
  JS.slice0 2 "T" = "T" /\ JS.string_of_index 120 = "120" /\
  JS.join ", " ["Plano"; "TX"] = "Plano, TX".
Proof. repeat split; reflexivity. Qed.

Example parseLocation_samples :
  parseLocation (Some "73301") = LocZip "73301" /\
  parseLocation (Some " 73301-1234 ") = LocZip "73301" /\
  parseLocation (Some "Dallas, tx") = LocCityState (Some "Dallas") (Some "TX") /\
  parseLocation (Some "Austin") = LocCityState (Some "Austin") None /\
  parseLocation (Some "   ") = LocCityState None None /\
  parseLocation (Some "7330") = LocCityState (Some "7330") None /\
  parseLocation (Some "1600, Pennsylvania Ave") =
    LocCityState (Some "1600") (Some "PE") /\
  parseLocation None = LocNone /\ parseLocation (Some "") = LocNone.
Proof. repeat split; reflexivity. Qed.

Example esc_samples :
  esc (Some "<script>alert('x & y')</script>") =
    "&lt;script&gt;alert(&#39;x &amp; y&#39;)&lt;/script&gt;" /\
  esc None = "" /\ esc (Some ("a" ++ DQ ++ "b")) = "a&quot;b".
Proof. repeat split; reflexivity. Qed.

Example upper_char_samples :
  JS.upper_char "q" = "Q"%char /\
  JS.upper_char (ascii_of_nat 233) = ascii_of_nat 201 /\
  JS.upper_char (ascii_of_nat 247) = ascii_of_nat 247 /\
  JS.upper_char (ascii_of_nat 223) = ascii_of_nat 223.
Proof. repeat split; reflexivity. Qed.

(** ** Properties of the built-ins *)

Lemma is_digit_not_ws (c : ascii) : JS.is_digit c = true -> JS.is_ws c = false.
Proof.
  unfold JS.is_digit, JS.is_ws.
  generalize (nat_of_ascii c); intros n H.
  apply andb_true_iff in H; destruct H as [H1 H2].
  apply Nat.leb_le in H1; apply Nat.leb_le in H2.
  repeat rewrite orb_false_iff; repeat split.
  - apply andb_false_iff; right; apply Nat.leb_gt; lia.
  - apply Nat.eqb_neq; lia.
  - apply Nat.eqb_neq; lia.
Qed.

Lemma trimStart_shape (s : string) :
  JS.trimStart s = EmptyString \/
  exists c t, JS.trimStart s = String c t /\ JS.is_ws c = false.
Proof.
  induction s as [|c s IH]; simpl.
  - now left.
  - destruct (JS.is_ws c) eqn:E; [exact IH|].
    right; exists c, s; auto.
Qed.

Lemma trimStart_fixed (c : ascii) (t : string) :
  JS.is_ws c = false -> JS.trimStart (String c t) = String c t.
Proof. intros H; simpl; now rewrite H. Qed.

Lemma trimEnd_head (c : ascii) (t : string) :
  JS.is_ws c = false -> exists t', JS.trimEnd (String c t) = String c t'.
Proof.
  intros H; simpl. destruct (JS.trimEnd t).
  - rewrite H; now exists EmptyString.
  - eexists; reflexivity.
Qed.

Lemma trimEnd_idem (s : string) : JS.trimEnd (JS.trimEnd s) = JS.trimEnd s.
Proof.
  induction s as [|c s IH]; simpl; [reflexivity|].
  destruct (JS.trimEnd s) as [|d t] eqn:E.
  - destruct (JS.is_ws c) eqn:W; simpl; [reflexivity|now rewrite W].
  - change (JS.trimEnd (String c (String d t)))
      with (match JS.trimEnd (String d t) with
            | EmptyString =>
                if JS.is_ws c then EmptyString else String c EmptyString
            | u => String c u
            end).
    now rewrite IH.
Qed.

Lemma trim_idem (s : string) : JS.trim (JS.trim s) = JS.trim s.
Proof.
  unfold JS.trim.
  destruct (trimStart_shape s) as [E|(c & t & E & W)]; rewrite E.
  - reflexivity.
  - destruct (trimEnd_head c t W) as [t' E'].
    rewrite E', (trimStart_fixed c t' W), <- E'.
    apply trimEnd_idem.
Qed.

(** A string that starts and ends with a character that is not white space
    is its own [trim]. *)
Lemma trimEnd_snoc (s : string) (c : ascii) :
  JS.is_ws c = false ->
  JS.trimEnd (s ++ String c EmptyString) = s ++ String c EmptyString.
Proof.
  intros W; induction s as [|d s IH]; simpl.
  - now rewrite W.
  - rewrite IH. destruct s; reflexivity.
Qed.

Lemma trim_fixed_ends (c d : ascii) (m : string) :
  JS.is_ws c = false -> JS.is_ws d = false ->
  JS.trim (String c (m ++ String d EmptyString)) =
  String c (m ++ String d EmptyString).
Proof.
  intros Wc Wd. unfold JS.trim. rewrite (trimStart_fixed c _ Wc).
  exact (trimEnd_snoc (String c m) d Wd).
Qed.

Lemma trimEnd_all_digits (s : string) :
  all_digits s = true -> JS.trimEnd s = s.
Proof.
  induction s as [|c s IH]; [reflexivity|].
  simpl; intros H. apply andb_true_iff in H; destruct H as [Hc H].
  rewrite (IH H), (is_digit_not_ws c Hc). now destruct s.
Qed.

Lemma trim_all_digits (s : string) : all_digits s = true -> JS.trim s = s.
Proof.
  intros H. unfold JS.trim.
  destruct s as [|c s]; [reflexivity|].
  pose proof H as H'. simpl in H'.
  apply andb_true_iff in H'; destruct H' as [Hc _].
  rewrite (trimStart_fixed c s (is_digit_not_ws c Hc)).
  now apply trimEnd_all_digits.
Qed.

Lemma or_str_some_empty (s : string) : JS.or_str (Some s) "" = s.
Proof. destruct s; reflexivity. Qed.

Lemma or_null_some (v : option string) (s : string) :
  JS.or_null v = Some s -> v = Some s /\ s <> EmptyString.
Proof.
  destruct v as [[|c t]|]; simpl; intros H; inversion H; subst.
  split; [reflexivity|discriminate].
Qed.

Lemma upper_char_not_lower (c : ascii) : is_lower (JS.upper_char c) = false.
Proof. destruct c as [[] [] [] [] [] [] [] []]; reflexivity. Qed.

Lemma toUpperCase_no_lower (s : string) : no_lower (JS.toUpperCase s) = true.
Proof.
  induction s as [|c s IH]; simpl; [reflexivity|].
  now rewrite upper_char_not_lower, IH.
Qed.

Lemma slice0_no_lower (n : nat) (s : string) :
  no_lower s = true -> no_lower (JS.slice0 n s) = true.
Proof.
  revert s; induction n as [|n IH]; intros [|c s] H; simpl; auto.
  simpl in H. apply andb_true_iff in H; destruct H as [Hc H].
  now rewrite Hc, IH.
Qed.

Lemma slice0_length (n : nat) (s : string) :
  (String.length (JS.slice0 n s) <= n)%nat.
Proof.
  revert s; induction n as [|n IH]; intros [|c s]; simpl; try lia.
  specialize (IH s); lia.
Qed.

(** ** The pattern of [isZip] *)

Lemma test_Void (s : string) : Re.test Re.Void s = false.
Proof. induction s; simpl; auto. Qed.

(** One character of the subject: split on whether the class accepts it. *)
Ltac re_step s :=
  let c := fresh "c" in
  destruct s as [|c s]; [reflexivity|];
  cbn -[Ascii.eqb JS.is_digit];
  match goal with
  | |- context [if ?b then _ else _] => destruct b eqn:?
  | |- context [?b && _] => destruct b eqn:?
  end;
  cbn -[Ascii.eqb JS.is_digit];
  [|try apply test_Void].

(** The derivative matcher on [zip_pattern] accepts exactly the strings of
    the postal-code form. *)
Lemma zip_pattern_shape (s : string) : Re.test zip_pattern s = zip_shape s.
Proof.
  unfold zip_pattern, zip_shape, Re.Chr.
  do 5 re_step s.
  destruct s as [|c4 s]; [reflexivity|].
  cbn -[Ascii.eqb JS.is_digit].
  destruct (Ascii.eqb "-" c4) eqn:E4; cbn -[Ascii.eqb JS.is_digit];
    [|apply test_Void].
  do 4 re_step s.
  destruct s; [reflexivity|]. cbn. apply test_Void.
Qed.

Lemma digits_then_slice (n : nat) (k : string -> bool) (s : string) :
  digits_then n k s = true ->
  String.length (JS.slice0 n s) = n /\ all_digits (JS.slice0 n s) = true.
Proof.
  revert s; induction n as [|n IH]; intros s H; [now split|].
  destruct s as [|c s]; [discriminate|].
  simpl in H. apply andb_true_iff in H; destruct H as [Hc H].
  destruct (IH s H) as [L D]. simpl. rewrite L, Hc, D. now split.
Qed.

Lemma zip_shape_five_digits (s : string) :
  zip_shape s = true -> five_digits (JS.slice0 5 s) = true.
Proof.
  intros H. destruct (digits_then_slice _ _ _ H) as [L D].
  unfold five_digits. now rewrite L, D.
Qed.

Lemma isZip_trim (s : string) : isZip (Some s) = zip_shape (JS.trim s).
Proof. unfold isZip. now rewrite or_str_some_empty, zip_pattern_shape. Qed.

(** ** [split] and the pieces around the commas *)

Lemma split_unfold (sep : ascii) (s : string) :
  JS.split sep s =
  before_sep sep s ::
  match after_sep sep s with
  | Some r => JS.split sep r
  | None => []
  end.
Proof.
  induction s as [|c s IH]; simpl; [reflexivity|].
  destruct (Ascii.eqb c sep); [reflexivity|].
  rewrite IH. reflexivity.
Qed.

Lemma split_first (sep : ascii) (s : string) :
  nth_error (JS.split sep s) 0 = Some (before_sep sep s).
Proof. now rewrite split_unfold. Qed.

Lemma split_second (sep : ascii) (s : string) :
  nth_error (JS.split sep s) 1 =
  match after_sep sep s with
  | Some r => Some (before_sep sep r)
  | None => None
  end.
Proof.
  rewrite split_unfold; simpl.
  destruct (after_sep sep s) as [r|]; [|reflexivity].
  now rewrite split_unfold.
Qed.

Lemma before_sep_all (sep : ascii) (s : string) :
  after_sep sep s = None -> before_sep sep s = s.
Proof.
  induction s as [|c s IH]; simpl; [reflexivity|].
  destruct (Ascii.eqb c sep); [discriminate|].
  intros H; now rewrite IH.
Qed.

(** ** [parseLocation] by cases *)

Lemma parseLocation_zip (s : string) :
  zip_shape (JS.trim s) = true ->
  parseLocation (Some s) = LocZip (JS.slice0 5 (JS.trim s)).
Proof.
  intros Z. destruct s as [|c s]; [discriminate|].
  unfold parseLocation. now rewrite isZip_trim, trim_idem, Z.
Qed.

Lemma parseLocation_nonzip (s : string) :
  JS.truthy (Some s) = true ->
  zip_shape (JS.trim s) = false ->
  parseLocation (Some s) =
  LocCityState (JS.or_null (Some (city_piece (JS.trim s))))
    (JS.or_null
       (Some (JS.slice0 2 (JS.toUpperCase (state_piece (JS.trim s)))))).
Proof.
  intros T Z. destruct s as [|c s]; [discriminate|].
  unfold parseLocation. rewrite isZip_trim, trim_idem, Z.
  generalize (JS.trim (String c s)); intros raw.
  rewrite !nth_error_map, split_first, split_second.
  unfold city_piece, state_piece.
  destruct (after_sep "," raw) as [r|]; cbn [option_map];
    rewrite ?or_str_some_empty; reflexivity.
Qed.

Lemma parseLocation_cases (input : option string) :
  (JS.truthy input = false /\ parseLocation input = LocNone) \/
  (exists s, input = Some s /\ zip_shape (JS.trim s) = true /\
             parseLocation input = LocZip (JS.slice0 5 (JS.trim s))) \/
  (exists s, input = Some s /\ zip_shape (JS.trim s) = false /\
     parseLocation input =
     LocCityState (JS.or_null (Some (city_piece (JS.trim s))))
       (JS.or_null
          (Some (JS.slice0 2 (JS.toUpperCase (state_piece (JS.trim s))))))).
Proof.
  destruct input as [s|]; [|left; now split].
  destruct s as [|c s]; [left; now split|].
  destruct (zip_shape (JS.trim (String c s))) eqn:Z.
  - right; left. exists (String c s). auto using parseLocation_zip.
  - right; right. exists (String c s). auto using parseLocation_nonzip.
Qed.

(** ** [esc] *)

Lemma esc_cons (c : ascii) (s : string) :
  esc (Some (String c s)) = entity c ++ esc (Some s).
Proof.
  unfold esc, entity. rewrite !or_str_some_empty.
  cbn -[Ascii.eqb].
  destruct (Ascii.eqb_spec c "&") as [->|N1]; [reflexivity|].
  cbn -[Ascii.eqb].
  destruct (Ascii.eqb_spec c "<") as [->|N2]; [reflexivity|].
  cbn -[Ascii.eqb].
  destruct (Ascii.eqb_spec c ">") as [->|N3]; [reflexivity|].
  cbn -[Ascii.eqb].
  destruct (Ascii.eqb_spec c dquote) as [->|N4]; [reflexivity|].
  cbn -[Ascii.eqb].
  destruct (Ascii.eqb_spec c "'") as [->|N5]; reflexivity.
Qed.

(** The five replacements in sequence amount to one pass: the entities
    introduced by an earlier replacement hold no character that a later
    one rewrites. *)
Lemma esc_escape_text (s : string) : esc (Some s) = escape_text s.
Proof.
  induction s as [|c s IH]; [reflexivity|].
  rewrite esc_cons, IH. reflexivity.
Qed.

Lemma esc_or_str (v : option string) : esc v = escape_text (JS.or_str v "").
Proof.
  rewrite <- esc_escape_text. unfold esc. now rewrite or_str_some_empty.
Qed.

Lemma occurs_app (c : ascii) (a b : string) :
  occurs c (a ++ b) = occurs c a || occurs c b.
Proof.
  induction a as [|x a IH]; simpl; [reflexivity|].
  now rewrite IH, orb_assoc.
Qed.

Lemma entity_no_markup (c x : ascii) :
  is_markup c = true -> occurs c (entity x) = false.
Proof.
  unfold is_markup, entity. intros H.
  repeat (apply orb_true_iff in H; destruct H as [H|H]);
    apply Ascii.eqb_eq in H; subst c;
    destruct (Ascii.eqb_spec x "&") as [->|N1]; try reflexivity;
    destruct (Ascii.eqb_spec x "<") as [->|N2]; try reflexivity;
    destruct (Ascii.eqb_spec x ">") as [->|N3]; try reflexivity;
    destruct (Ascii.eqb_spec x dquote) as [->|N4]; try reflexivity;
    destruct (Ascii.eqb_spec x "'") as [->|N5]; try reflexivity;
    simpl; rewrite orb_false_r; now apply Ascii.eqb_neq.
Qed.

Lemma escape_text_no_markup (c : ascii) (s : string) :
  is_markup c = true -> occurs c (escape_text s) = false.
Proof.
  intros H; induction s as [|x s IH]; simpl; [reflexivity|].
  now rewrite occurs_app, IH, (entity_no_markup c x H).
Qed.

Lemma string_app_assoc (a b c : string) : (a ++ b) ++ c = a ++ (b ++ c).
Proof. induction a as [|x a IH]; simpl; congruence. Qed.

Lemma escape_text_app (a b : string) :
  escape_text (a ++ b) = escape_text a ++ escape_text b.
Proof.
  induction a as [|x a IH]; simpl; [reflexivity|].
  now rewrite IH, string_app_assoc.
Qed.

Lemma contains_cons (p : string) (x : ascii) (s : string) :
  contains p (String x s) = String.prefix p (String x s) || contains p s.
Proof. reflexivity. Qed.

(** A pattern that starts with [c] cannot begin inside a text without
    [c]. *)
Lemma contains_skip (c : ascii) (p e t : string) :
  occurs c e = false ->
  contains (String c p) (e ++ t) = contains (String c p) t.
Proof.
  induction e as [|x e IH]; intros H; [reflexivity|].
  simpl in H. apply orb_false_iff in H; destruct H as [Hx He].
  change (String x e ++ t) with (String x (e ++ t)).
  rewrite contains_cons, (IH He).
  simpl String.prefix.
  destruct (ascii_dec c x) as [->|N]; [|reflexivity].
  now rewrite Ascii.eqb_refl in Hx.
Qed.

Lemma uint_string_no_lt (d : Decimal.uint) :
  occurs "<" (NilEmpty.string_of_uint d) = false.
Proof. induction d; simpl; auto. Qed.

Lemma index_string_no_lt (n : Z) : occurs "<" (JS.string_of_index n) = false.
Proof.
  unfold JS.string_of_index, NilZero.string_of_uint.
  destruct (N.to_uint (Z.to_N n)) eqn:E; try reflexivity;
    rewrite <- E; apply uint_string_no_lt.
Qed.

Lemma content_no_script {number} (r : ProviderRecord number) (idx : nat) :
  contains "<script" (item_content r idx) = false.
Proof.
  unfold item_content, DQ.
  cbn -[esc JS.string_of_index item_title item_citySt].
  rewrite contains_skip
    by (rewrite esc_or_str; apply escape_text_no_markup; reflexivity).
  cbn -[esc JS.string_of_index item_title item_citySt].
  rewrite contains_skip
    by (rewrite esc_or_str; apply escape_text_no_markup; reflexivity).
  cbn -[esc JS.string_of_index item_title item_citySt].
  rewrite contains_skip
    by (rewrite esc_or_str; apply escape_text_no_markup; reflexivity).
  cbn -[esc JS.string_of_index item_title item_citySt].
  rewrite contains_skip by apply index_string_no_lt.
  reflexivity.
Qed.

(** ** [map] with an index *)

Lemma map_index_length {A B : Type} (f : A -> nat -> B) (i : nat) (l : list A) :
  List.length (map_index f i l) = List.length l.
Proof. revert i; induction l as [|a l IH]; intros i; simpl; auto. Qed.

Lemma map_index_nth {A B : Type} (f : A -> nat -> B) (l : list A) :
  forall (i k : nat),
    nth_error (map_index f i l) k =
    option_map (fun a => f a (i + k)%nat) (nth_error l k).
Proof.
  induction l as [|a l IH]; intros i k.
  - now destruct k.
  - destruct k as [|k]; simpl.
    + now rewrite Nat.add_0_r.
    + rewrite IH. now rewrite Nat.add_succ_r.
Qed.

Lemma num_or_cases (v : option Z) (d : Z) :
  (v = None /\ num_or v d = d) \/ (v = Some 0 /\ num_or v d = d) \/
  (exists n, v = Some n /\ n <> 0 /\ num_or v d = n).
Proof.
  destruct v as [[|p|p]|]; simpl; auto;
    right; right; eexists; repeat split; discriminate.
Qed.

(** ** Rounding to a double and the limit

    [parseInt] hands back the double nearest to the integer it read.  For
    any rounding that is monotone and exact up to 2^53, the rounded value
    is zero exactly when the integer is, and clamping it to 1..200 gives
    what clamping the integer gives; so [lim_of], which works on the
    integer, computes the limit of the source. *)

Section Rounding.

Variable round : Z -> Z.
Hypothesis round_monotone : forall a b, a <= b -> round a <= round b.
Hypothesis round_exact :
  forall a, - 9007199254740992 <= a <= 9007199254740992 -> round a = a.

Lemma round_zero (n : Z) : round n = 0 <-> n = 0.
Proof.
  split; [|intros ->; apply round_exact; lia].
  intros H.
  destruct (Z_lt_le_dec n 1) as [L|L].
  - destruct (Z_lt_le_dec n 0) as [L'|L']; [|lia].
    pose proof (round_monotone n (-1) ltac:(lia)) as M.
    rewrite (round_exact (-1)) in M by lia. lia.
  - pose proof (round_monotone 1 n L) as M.
    rewrite (round_exact 1) in M by lia. lia.
Qed.

Lemma round_clamp (n : Z) :
  Z.max 1 (Z.min (round n) 200) = Z.max 1 (Z.min n 200).
Proof.
  destruct (Z_lt_le_dec n 1) as [L|L].
  - pose proof (round_monotone n 1 ltac:(lia)) as M.
    rewrite (round_exact 1) in M by lia. lia.
  - destruct (Z_lt_le_dec 200 n) as [U|U].
    + pose proof (round_monotone 200 n ltac:(lia)) as M.
      rewrite (round_exact 200) in M by lia. lia.
    + rewrite round_exact by lia. reflexivity.
Qed.

Lemma round_limit (v : option Z) :
  Z.max 1 (Z.min (num_or (option_map round v) 20) 200) =
  Z.max 1 (Z.min (num_or v 20) 200).
Proof.
  destruct v as [n|]; [|reflexivity]. cbn [option_map].
  destruct (Z.eq_dec n 0) as [->|N].
  - now rewrite (proj2 (round_zero 0) eq_refl).
  - pose proof (proj1 (round_zero n)) as R.
    assert (E : forall m, m <> 0 -> num_or (Some m) 20 = m)
      by (intros [|p|p] Hm; [contradiction|reflexivity|reflexivity]).
    rewrite (E n N), (E (round n)) by tauto.
    apply round_clamp.
Qed.

End Rounding.

(** * The properties of the specification *)

(** ** C1: the row limit *)

(** C1, against the claim: the limit text [0] does not yield 1.  [parseInt]
    reads the number 0, which is falsy, so [parseInt(limit) || 20] is 20,
    and 20 is already within the bounds. *)
Lemma C1_zero_limit_gives_default :
  JS.parseInt "0" = Some 0 /\ lim_of (Some "0") = 20 /\ lim_of (Some "0") <> 1.
Proof. repeat split; discriminate. Qed.

(** C1, as amended: for every raw limit, absent or any text, the resulting
    limit is an integer between 1 and 200.  An absent limit, a text that
    does not parse and a text that parses to 0 all give 20; any other
    parsed value is clamped to the bounds.  In particular the texts [0],
    [500], [abc] and [-7] give 20, 200, 20 and 1. *)
Theorem C1_limit_normalised (limit : option string) :
  1 <= lim_of limit <= 200 /\
  (limit = None -> lim_of limit = 20) /\
  (forall s, limit = Some s -> JS.parseInt s = None -> lim_of limit = 20) /\
  (forall s, limit = Some s -> JS.parseInt s = Some 0 -> lim_of limit = 20) /\
  (forall s n, limit = Some s -> JS.parseInt s = Some n -> n <> 0 ->
     (n < 1 -> lim_of limit = 1) /\
     (1 <= n <= 200 -> lim_of limit = n) /\
     (200 < n -> lim_of limit = 200)) /\
  lim_of (Some "0") = 20 /\ lim_of (Some "500") = 200 /\
  lim_of (Some "abc") = 20 /\ lim_of (Some "-7") = 1.
Proof.
  split; [unfold lim_of; lia|].
  split; [intros ->; reflexivity|].
  split; [intros s -> H; unfold lim_of; now rewrite H|].
  split; [intros s -> H; unfold lim_of; now rewrite H|].
  split; [|repeat split; reflexivity].
  intros s n -> H N. unfold lim_of. rewrite H.
  destruct (num_or_cases (Some n) 20) as [[E _]|[[E _]|(m & E & _ & ->)]];
    inversion E; subst; [contradiction|].
  lia.
Qed.

(** ** C2: escaping in [content] *)

(** C2: for every record and rank, [content] is the fixed markup around
    three texts, the title, the category and the city/state string, each
    escaped character by character with the entities of the five special
    characters; no escaped text holds a raw markup character; a title or a
    category with a script tag shows in [content] with the tag escaped;
    and [content] holds no raw script tag whatever the record. *)
Theorem C2_content_is_escaped {number : Type} (str : number -> string)
    (r : ProviderRecord number) (idx : nat) :
  content (format_item str r idx) =
    "<div><strong>" ++ escape_text (title (format_item str r idx))
    ++ "</strong><br>" ++ escape_text (JS.or_str (Category r) "")
    ++ " - " ++ escape_text (item_citySt r)
    ++ "<br><a href=" ++ DQ ++ url (format_item str r idx) ++ DQ
    ++ " target=" ++ DQ ++ "_blank" ++ DQ ++ ">View Details</a></div>" /\
  (forall c s, is_markup c = true -> occurs c (escape_text s) = false) /\
  (forall a b, title (format_item str r idx) = a ++ "<script>" ++ b ->
     exists pre post,
       content (format_item str r idx) = pre ++ "&lt;script&gt;" ++ post) /\
  (forall a b, Category r = Some (a ++ "<script>" ++ b) ->
     exists pre post,
       content (format_item str r idx) = pre ++ "&lt;script&gt;" ++ post) /\
  contains "<script" (content (format_item str r idx)) = false.
Proof.
  assert (E : content (format_item str r idx) =
    "<div><strong>" ++ escape_text (item_title r)
    ++ "</strong><br>" ++ escape_text (JS.or_str (Category r) "")
    ++ " - " ++ escape_text (item_citySt r)
    ++ "<br><a href=" ++ DQ ++ facility_url idx ++ DQ
    ++ " target=" ++ DQ ++ "_blank" ++ DQ ++ ">View Details</a></div>").
  { cbn [content format_item]. unfold item_content, facility_url.
    rewrite !esc_escape_text, !string_app_assoc. reflexivity. }
  split; [exact E|].
  split; [intros c s; apply escape_text_no_markup|].
  split; [|split].
  - intros a b H. cbn [title format_item] in H. rewrite E, H.
    rewrite !escape_text_app.
    exists ("<div><strong>" ++ escape_text a). eexists.
    rewrite !string_app_assoc. reflexivity.
  - intros a b H. rewrite E, H, or_str_some_empty.
    rewrite !escape_text_app.
    exists ("<div><strong>" ++ escape_text (item_title r)
            ++ "</strong><br>" ++ escape_text a). eexists.
    rewrite !string_app_assoc. reflexivity.
  - apply content_no_script.
Qed.

(** ** C3: the city/state branch of [parseLocation] *)

(** C3, against the claim: with two commas the state is not read from all
    of the text after the first comma.  The source splits at every comma
    and keeps the first two pieces, so the state ends at the second
    comma. *)
Lemma C3_state_ends_at_second_comma :
  JS.truthy (Some "Washington,D,C") = true /\
  isZip (Some "Washington,D,C") = false /\
  parseLocation (Some "Washington,D,C") =
    LocCityState (Some "Washington") (Some "D") /\
  first_comma_split "Washington,D,C" =
    LocCityState (Some "Washington") (Some "D,").
Proof. repeat split. Qed.

(** C3, as amended: for every non-empty location that is not a postal
    code, the city is the trimmed text before the first comma, or null when
    that is empty, and the state is the trimmed text between the first
    comma and the second (or the end of the input), upper-cased and cut to
    its first 2 characters, or null when that is empty or there is no
    comma.  With at most one comma this is the split at the first comma.
    A location without comma has a null state; the location [Austin]
    gives the city [Austin] and a null state. *)
Theorem C3_city_and_state_pieces (input : string) :
  JS.truthy (Some input) = true ->
  isZip (Some input) = false ->
  parseLocation (Some input) =
    LocCityState
      (JS.or_null (Some (city_piece (JS.trim input))))
      (JS.or_null
         (Some (JS.slice0 2 (JS.toUpperCase (state_piece (JS.trim input)))))) /\
  (forall r, after_sep "," (JS.trim input) = Some r ->
             after_sep "," r = None ->
             parseLocation (Some input) = first_comma_split (JS.trim input)) /\
  (after_sep "," (JS.trim input) = None ->
     parseLocation (Some input) = first_comma_split (JS.trim input) /\
     loc_state (parseLocation (Some input)) = None) /\
  parseLocation (Some "Austin") = LocCityState (Some "Austin") None.
Proof.
  intros T Z. rewrite isZip_trim in Z.
  rewrite (parseLocation_nonzip input T Z).
  split; [reflexivity|].
  split; [|split; [|reflexivity]].
  - intros r H1 H2. unfold first_comma_split, city_piece, state_piece.
    now rewrite H1, or_str_some_empty, (before_sep_all _ _ H2).
  - intros H. unfold first_comma_split, city_piece, state_piece.
    rewrite H. split; reflexivity.
Qed.

Lemma C3_city_and_state_pieces_witness :
  parseLocation (Some "Dallas, tx") =
    LocCityState (Some "Dallas") (Some "TX") /\
  parseLocation (Some " St. Paul ,mn , usa") =
    LocCityState (Some "St. Paul") (Some "MN").
Proof.
  split.
  - exact (proj1 (C3_city_and_state_pieces "Dallas, tx" eq_refl eq_refl)).
  - exact (proj1 (C3_city_and_state_pieces " St. Paul ,mn , usa"
                    eq_refl eq_refl)).
Defined.

(** ** C4: the shapes of a parsed location *)

(** C4, against the claim: a state need not be two upper-case letters.  A
    one-letter state part gives a one-character state, and digits pass
    through unchanged. *)
Lemma C4_state_of_one_character :
  loc_state (parseLocation (Some "Austin, t")) = Some "T" /\
  two_upper_letters "T" = false /\
  loc_state (parseLocation (Some "Austin, 12")) = Some "12" /\
  two_upper_letters "12" = false.
Proof. repeat split. Qed.

(** C4, as amended: for every input, absent or any text, at most one of the
    postal-code branch and the city/state branch is populated; a state
    that is present has 1 or 2 characters, none of them an ASCII
    lower-case letter (a to z); a zip5 that is present is exactly 5
    digits. *)
Theorem C4_parsed_location_invariant (input : option string) :
  (loc_zip5 (parseLocation input) = None \/
   (loc_city (parseLocation input) = None /\
    loc_state (parseLocation input) = None)) /\
  (forall s, loc_state (parseLocation input) = Some s ->
     (1 <= String.length s <= 2)%nat /\ no_lower s = true) /\
  (forall z, loc_zip5 (parseLocation input) = Some z -> five_digits z = true).
Proof.
  destruct (parseLocation_cases input)
    as [[_ E]|[(s & _ & Z & E)|(s & _ & Z & E)]]; rewrite E;
    cbn [loc_zip5 loc_city loc_state].
  - repeat split; auto; discriminate.
  - split; [right; now split|]. split; [discriminate|].
    intros z H; inversion H; subst. now apply zip_shape_five_digits.
  - split; [now left|]. split; [|discriminate].
    pose proof (slice0_length 2
                  (JS.toUpperCase (state_piece (JS.trim s)))) as L.
    pose proof (slice0_no_lower 2 _
                  (toUpperCase_no_lower (state_piece (JS.trim s)))) as U.
    revert L U.
    generalize (JS.slice0 2 (JS.toUpperCase (state_piece (JS.trim s)))).
    intros x L U st H. apply or_null_some in H. destruct H as [H N].
    injection H as <-. split; [|exact U].
    destruct x; [now elim N|simpl in *; lia].
Qed.

(** ** C5: the string fields of the filter *)

(** C5, against the claim: the category is bound as it was sent, without
    trimming, so a category with surrounding white space stays so. *)
Lemma C5_category_is_not_trimmed :
  fs_category (build (mkRawQuery None (Some " Clinic ") None None)) =
    Some " Clinic " /\
  JS.trim " Clinic " = "Clinic" /\
  fs_state (build (mkRawQuery None None (Some "Austin, a b") None)) =
    Some "A ".
Proof. repeat split. Qed.

(** C5, as amended: for every raw query, the category of the filter is the
    input category unchanged, or null when it is absent or empty; every
    string field that is not null is a non-empty string; and the text
    pattern, the zip5 and the city are moreover trimmed. *)
Theorem C5_filter_string_fields (rq : RawQuery) :
  fs_category (build rq) = JS.or_null (rq_category rq) /\
  (forall s, In (Some s) (string_fields (build rq)) -> s <> EmptyString) /\
  (forall s, In (Some s) [fs_q (build rq); fs_zip5 (build rq);
                          fs_city (build rq)] ->
             JS.trim s = s).
Proof.
  split; [reflexivity|]. split.
  - intros s H. unfold string_fields in H. cbn [build fs_category fs_q
      fs_zip5 fs_city fs_state In] in H.
    destruct H as [H|[H|[H|[H|[H|[]]]]]];
      try (apply or_null_some in H; tauto).
    destruct (rq_q rq) as [[|c q]|]; try discriminate.
    inversion H; discriminate.
  - intros s H. cbn [build fs_q fs_zip5 fs_city In] in H.
    destruct H as [H|[H|[H|[]]]].
    + destruct (rq_q rq) as [[|c q]|]; try discriminate.
      injection H as <-.
      exact (trim_fixed_ends "%" "%" (String c q) eq_refl eq_refl).
    + apply or_null_some in H; destruct H as [H _].
      destruct (parseLocation_cases (rq_location rq))
        as [[_ E]|[(i & _ & Z & E)|(i & _ & Z & E)]];
        rewrite E in H; cbn [loc_zip5 loc_city] in H; try discriminate.
      inversion H; subst s. apply trim_all_digits.
      pose proof (zip_shape_five_digits _ Z) as F.
      unfold five_digits in F. apply andb_true_iff in F. tauto.
    + apply or_null_some in H; destruct H as [H _].
      destruct (parseLocation_cases (rq_location rq))
        as [[_ E]|[(i & _ & Z & E)|(i & _ & Z & E)]];
        rewrite E in H; cbn [loc_zip5 loc_city] in H; try discriminate.
      apply or_null_some in H; destruct H as [H _].
      inversion H; subst s. unfold city_piece. apply trim_idem.
Qed.

(** ** C6: title and summary *)

(** C6: for every record, the title of the formatted item is the
    organization name, or [Unnamed Facility] when the name is absent or
    empty; the summary is the category, or [Healthcare Facility] when the
    category is absent or empty, followed by [ in ] and the city/state
    string, or by nothing when the city/state string is empty; the
    city/state string joins the city and the state that are present with a
    comma and a space.  A record with an empty name, a null category, the
    city [Plano] and the state [TX] has the title [Unnamed Facility] and
    the summary [Healthcare Facility in Plano, TX]. *)
Theorem C6_title_and_summary {number : Type} (str : number -> string)
    (r : ProviderRecord number) (idx : nat) :
  title (format_item str r idx) =
    match Provider_Organization_Name r with
    | Some name => if is_empty name then "Unnamed Facility" else name
    | None => "Unnamed Facility"
    end /\
  summary (format_item str r idx) =
    (match Category r with
     | Some cat => if is_empty cat then "Healthcare Facility" else cat
     | None => "Healthcare Facility"
     end)
    ++ (if is_empty (item_citySt r) then "" else " in " ++ item_citySt r) /\
  item_citySt r =
    match JS.or_null (Provider_Practice_City r),
          JS.or_null (Provider_Practice_State r) with
    | Some city, Some state => city ++ ", " ++ state
    | Some city, None => city
    | None, Some state => state
    | None, None => ""
    end /\
  (forall zip addr lat lng tax,
     let plano :=
       mkProviderRecord None (Some "") (Some "Plano") (Some "TX")
         zip addr lat lng tax in
     title (format_item str plano idx) = "Unnamed Facility" /\
     summary (format_item str plano idx) = "Healthcare Facility in Plano, TX").
Proof.
  split; [|split; [|split]].
  - cbn [title format_item]. unfold item_title.
    now destruct (Provider_Organization_Name r) as [[|c s]|].
  - cbn [summary format_item]. unfold item_summary.
    f_equal.
    + now destruct (Category r) as [[|c s]|].
    + now destruct (item_citySt r).
  - unfold item_citySt.
    destruct (Provider_Practice_City r) as [[|c s]|];
      destruct (Provider_Practice_State r) as [[|d t]|]; reflexivity.
  - intros; split; reflexivity.
Qed.

(** ** C7: identifiers and ranks *)

(** C7: for every result sequence of N records, the identifiers of the
    formatted items are 1, 2, ..., N in that order, hence without gap or
    repeat; the item at position k (from 0) is the formatted k-th record,
    its identifier is k + 1, and its detail url is the facility address
    followed by the decimal digits of that identifier. *)
Theorem C7_ids_are_ranks {number : Type} (str : number -> string)
    (recordset : option (list (ProviderRecord number))) :
  map id (format_items str recordset) =
    map Z.of_nat
      (seq 1 (List.length
                (match recordset with Some rows => rows | None => [] end))) /\
  NoDup (map id (format_items str recordset)) /\
  (forall k item,
     nth_error (format_items str recordset) k = Some item ->
     id item = Z.of_nat k + 1 /\
     url item =
       "https://findcare.dev/facility/" ++ JS.string_of_index (id item) /\
     exists r,
       nth_error (match recordset with Some rows => rows | None => [] end) k
         = Some r /\
       item = format_item str r k).
Proof.
  unfold format_items.
  generalize (match recordset with Some rows => rows | None => [] end).
  intros rows.
  assert (Ids : forall (l : list (ProviderRecord number)) (i : nat),
             map id (map_index (format_item str) i l) =
             map Z.of_nat (seq (S i) (List.length l))).
  { induction l as [|a l IH]; intros i; simpl; [reflexivity|].
    rewrite IH. f_equal. lia. }
  split; [apply Ids|]. split.
  - rewrite Ids. apply Injective_map_NoDup.
    + intros a b; apply Nat2Z.inj.
    + apply seq_NoDup.
  - intros k item H. rewrite map_index_nth in H.
    destruct (nth_error rows k) as [r|]; [|discriminate].
    injection H as <-. simpl. repeat split. now exists r.
Qed.

(** ** C8: the two envelopes *)

(** C8: whatever the data store does, the response is one of two shapes
    and nothing in between.  When the connection and the query succeed, it
    is status 200 with every row formatted in [items], [next_page] null and
    [stat] ok.  When either throws, it is status 500 with [stat] error and
    a message, the thrown message or [Internal server error] when that is
    missing or empty, and it has no items. *)
Theorem C8_success_or_error_envelope {number : Type} (str : number -> string)
    (db : Upstream number) (rq : RawQuery) :
  (exists recordset,
     connect db = Done tt /\
     run_query db (build rq) = Done recordset /\
     map_feed str db rq =
       {| status := 200;
          body := FeedOk (format_items str recordset) None "0.01s" "ok" |} /\
     List.length (format_items str recordset) =
       List.length (match recordset with Some rows => rows | None => [] end))
  \/
  (exists e,
     (connect db = Thrown e \/
      (connect db = Done tt /\ run_query db (build rq) = Thrown e)) /\
     map_feed str db rq =
       {| status := 500;
          body := FeedError "error"
                    (JS.or_str (err_message e) "Internal server error") |} /\
     body_items (body (map_feed str db rq)) = None /\
     body_message (body (map_feed str db rq)) <> Some EmptyString).
Proof.
  unfold map_feed, try_map_feed.
  destruct (connect db) as [[]|e] eqn:C; cbn [bind].
  - destruct (run_query db (build rq)) as [recordset|e] eqn:Q; cbn [bind].
    + left. exists recordset. repeat split.
      unfold format_items. apply map_index_length.
    + right. exists e. split; [right; now split|].
      repeat split. cbn. now destruct (err_message e) as [[|c s]|].
  - right. exists e. split; [now left|].
    repeat split. cbn. now destruct (err_message e) as [[|c s]|].
Qed.

(** ** C9: postal codes *)

(** C9: for every location whose trimmed text matches the postal-code
    pattern, [parseLocation] returns the zip5 shape holding the first 5
    characters of the trimmed text, which are 5 digits; it has neither city
    nor state, and a dash with 4 more digits is dropped. *)
Theorem C9_zip_location (input : string) :
  Re.test zip_pattern (JS.trim input) = true ->
  parseLocation (Some input) = LocZip (JS.slice0 5 (JS.trim input)) /\
  five_digits (JS.slice0 5 (JS.trim input)) = true /\
  loc_city (parseLocation (Some input)) = None /\
  loc_state (parseLocation (Some input)) = None.
Proof.
  rewrite zip_pattern_shape. intros Z.
  rewrite (parseLocation_zip input Z).
  repeat split. now apply zip_shape_five_digits.
Qed.

Lemma C9_zip_location_witness :
  parseLocation (Some " 73301-1234 ") = LocZip "73301" /\
  parseLocation (Some "73301") = LocZip "73301".
Proof.
  split.
  - exact (proj1 (C9_zip_location " 73301-1234 " eq_refl)).
  - exact (proj1 (C9_zip_location "73301" eq_refl)).
Defined.

(** ** C10: the reported generation time *)

(** C10: for every request and every result set the data store answers
    with, the [generated_in] field of the response is the text [0.01s]; it
    is a constant of the success envelope and depends on nothing. *)
Theorem C10_generated_in_is_constant {number : Type} (str : number -> string)
    (rows : FilterSpec -> option (list (ProviderRecord number)))
    (rq : RawQuery) :
  body_generated_in (body (map_feed str (answering rows) rq)) = Some "0.01s" /\
  (forall items, body_generated_in (body (assemble items)) = Some "0.01s").
Proof. split; reflexivity. Qed.

(** * Further properties of the code *)

(** ** [esc] *)

Lemma entity_plain (c : ascii) :
  is_special c = false -> entity c = String c EmptyString.
Proof.
  unfold is_special, is_markup, entity.
  destruct (Ascii.eqb c "&"); [discriminate|].
  destruct (Ascii.eqb c "<"); [discriminate|].
  destruct (Ascii.eqb c ">"); [discriminate|].
  destruct (Ascii.eqb c dquote); [discriminate|].
  destruct (Ascii.eqb c "'"); [discriminate|reflexivity].
Qed.

Lemma entity_length (c : ascii) :
  (1 <= String.length (entity c))%nat /\
  (is_special c = true -> 4 <= String.length (entity c))%nat.
Proof.
  destruct (is_special c) eqn:S.
  - unfold is_special, is_markup in S. unfold entity.
    destruct (Ascii.eqb c "&"); [simpl; split; intros; lia|].
    destruct (Ascii.eqb c "<"); [simpl; split; intros; lia|].
    destruct (Ascii.eqb c ">"); [simpl; split; intros; lia|].
    destruct (Ascii.eqb c dquote); [simpl; split; intros; lia|].
    destruct (Ascii.eqb c "'"); [simpl; split; intros; lia|].
    discriminate.
  - rewrite (entity_plain c S). simpl. split; [lia|discriminate].
Qed.

Lemma string_app_length (a b : string) :
  String.length (a ++ b) = (String.length a + String.length b)%nat.
Proof. induction a as [|x a IH]; simpl; congruence. Qed.

Lemma escape_text_length (s : string) :
  (String.length s <= String.length (escape_text s))%nat.
Proof.
  induction s as [|c s IH]; simpl; [lia|].
  rewrite string_app_length. pose proof (proj1 (entity_length c)). lia.
Qed.

Lemma unescape_entity (c : ascii) (r : string) :
  unescape (entity c ++ r) = String c (unescape r).
Proof. destruct c as [[] [] [] [] [] [] [] []]; reflexivity. Qed.

Lemma well_escaped_entity (c : ascii) (r : string) :
  well_escaped (entity c ++ r) = well_escaped r.
Proof. destruct c as [[] [] [] [] [] [] [] []]; reflexivity. Qed.

Lemma unescape_escape_text (s : string) : unescape (escape_text s) = s.
Proof.
  induction s as [|c s IH]; [reflexivity|].
  simpl escape_text. now rewrite unescape_entity, IH.
Qed.

(** X1: [esc] returns a text unchanged exactly when the text holds none of
    the five special characters; it never shortens a text. *)
Theorem X1_esc_fixes_plain_text (s : string) :
  (esc (Some s) = s <-> no_special s = true) /\
  (String.length s <= String.length (esc (Some s)))%nat.
Proof.
  rewrite esc_escape_text. split; [|apply escape_text_length].
  induction s as [|c s IH]; [now split|].
  simpl. destruct (is_special c) eqn:S; simpl.
  - split; [|discriminate]. intros E.
    apply (f_equal String.length) in E.
    rewrite string_app_length in E. simpl in E.
    pose proof (proj2 (entity_length c) S).
    pose proof (escape_text_length s). lia.
  - rewrite (entity_plain c S). simpl. split.
    + intros E. injection E as E. now apply IH.
    + intros N. f_equal. now apply IH.
Qed.

(** X2: escaping a concatenation is concatenating the escaped parts, so a
    text can be escaped piece by piece. *)
Theorem X2_esc_concatenation (a b : string) :
  esc (Some (a ++ b)) = esc (Some a) ++ esc (Some b).
Proof. rewrite !esc_escape_text. apply escape_text_app. Qed.

(** X3: escaping loses nothing: reading the five entities back returns the
    original text, and two different texts never escape to the same
    output. *)
Theorem X3_esc_round_trip (s : string) :
  unescape (esc (Some s)) = s /\
  (forall t, esc (Some s) = esc (Some t) -> s = t).
Proof.
  split; [rewrite esc_escape_text; apply unescape_escape_text|].
  intros t E. apply (f_equal unescape) in E.
  now rewrite !esc_escape_text, !unescape_escape_text in E.
Qed.

(** X4: for every value, null and undefined included, the output of [esc]
    is a sequence of the five entities and of characters that are none of
    the five: no ampersand stands outside an entity. *)
Theorem X4_esc_output_well_formed (v : option string) :
  well_escaped (esc v) = true.
Proof.
  rewrite esc_or_str. generalize (JS.or_str v ""). intros s.
  induction s as [|c s IH]; [reflexivity|].
  simpl escape_text. now rewrite well_escaped_entity.
Qed.

(** ** [isZip] and [parseLocation] *)

(** X5: [isZip] accepts a value exactly when its trimmed text is five
    digits, alone or followed by a dash and four digits; null, undefined
    and the empty string are rejected, and white space around the text
    does not matter. *)
Theorem X5_isZip_accepts_postal_codes (v : option string) :
  isZip v = zip_shape (JS.trim (JS.or_str v "")) /\
  (JS.truthy v = false -> isZip v = false) /\
  (forall s, isZip (Some (JS.trim s)) = isZip (Some s)).
Proof.
  split; [|split].
  - unfold isZip. apply zip_pattern_shape.
  - now destruct v as [[|c s]|].
  - intros s. now rewrite !isZip_trim, trim_idem.
Qed.

(** X6: [parseLocation] answers with a zip5 exactly when [isZip] accepts
    the input; in every other case the zip5 is absent. *)
Theorem X6_zip_branch_iff_isZip (v : option string) :
  match loc_zip5 (parseLocation v) with
  | Some _ => true
  | None => false
  end = isZip v.
Proof.
  destruct v as [s|]; [|reflexivity].
  rewrite isZip_trim.
  destruct (parseLocation_cases (Some s))
    as [[T E]|[(i & I & Z & E)|(i & I & Z & E)]]; rewrite E.
  - destruct s; [reflexivity|discriminate].
  - injection I as <-. now rewrite Z.
  - injection I as <-. now rewrite Z.
Qed.

Lemma slice0_all (a : string) : JS.slice0 (String.length a) a = a.
Proof. induction a as [|x a IH]; simpl; congruence. Qed.

Lemma digits_then_all (k : string -> bool) (a : string) :
  all_digits a = true -> digits_then (String.length a) k a = k EmptyString.
Proof.
  induction a as [|x a IH]; simpl; [reflexivity|].
  intros H. apply andb_true_iff in H; destruct H as [Hx H].
  now rewrite Hx, IH.
Qed.

Lemma slice0_app (a b : string) : JS.slice0 (String.length a) (a ++ b) = a.
Proof. induction a as [|x a IH]; simpl; [now destruct b|now rewrite IH]. Qed.

Lemma digits_then_app (k : string -> bool) (a b : string) :
  all_digits a = true ->
  digits_then (String.length a) k (a ++ b) = k b.
Proof.
  induction a as [|x a IH]; simpl; [reflexivity|].
  intros H. apply andb_true_iff in H; destruct H as [Hx H].
  now rewrite Hx, IH.
Qed.

Lemma all_digits_last (s : string) :
  all_digits s = true -> s <> EmptyString ->
  exists m d, s = m ++ String d EmptyString /\ JS.is_digit d = true.
Proof.
  induction s as [|c s IH]; intros H N; [now elim N|].
  simpl in H. apply andb_true_iff in H; destruct H as [Hc H].
  destruct s as [|c' s'].
  - exists EmptyString, c. now split.
  - destruct (IH H ltac:(discriminate)) as (m & d & E & D).
    exists (String c m), d. split; [|exact D]. simpl. now rewrite <- E.
Qed.

(** X7: a postal code with its four-digit extension parses to the same
    result as the five-digit code alone. *)
Theorem X7_zip_extension_is_dropped (z p : string) :
  five_digits z = true ->
  String.length p = 4%nat ->
  all_digits p = true ->
  parseLocation (Some (z ++ "-" ++ p)) = LocZip z /\
  parseLocation (Some z) = LocZip z.
Proof.
  intros F L D. unfold five_digits in F.
  apply andb_true_iff in F; destruct F as [Lz Dz].
  apply Nat.eqb_eq in Lz.
  assert (Tz : JS.trim z = z) by now apply trim_all_digits.
  assert (T : JS.trim (z ++ "-" ++ p) = z ++ "-" ++ p).
  { destruct z as [|a z']; [discriminate|].
    destruct (all_digits_last p D) as (m & d & -> & Hd);
      [intros ->; discriminate|].
    simpl in Dz. apply andb_true_iff in Dz; destruct Dz as [Ha _].
    replace (String a z' ++ "-" ++ m ++ String d EmptyString)
      with (String a ((z' ++ "-" ++ m) ++ String d EmptyString)).
    - apply trim_fixed_ends; now apply is_digit_not_ws.
    - simpl. f_equal. rewrite !string_app_assoc. reflexivity. }
  assert (Zz : zip_shape z = true).
  { unfold zip_shape. now rewrite <- Lz, (digits_then_all _ z Dz). }
  assert (Zp : zip_shape (z ++ "-" ++ p) = true).
  { unfold zip_shape. rewrite <- Lz, (digits_then_app _ z _ Dz).
    cbn -[digits_then]. now rewrite <- L, (digits_then_all _ p D). }
  split.
  - rewrite parseLocation_zip; rewrite T; [|exact Zp].
    now rewrite <- Lz, slice0_app.
  - rewrite parseLocation_zip; rewrite Tz; [|exact Zz].
    now rewrite <- Lz, slice0_all.
Qed.

Lemma X7_zip_extension_is_dropped_witness :
  parseLocation (Some "90210-1234") = LocZip "90210" /\
  parseLocation (Some "90210") = LocZip "90210".
Proof.
  exact (X7_zip_extension_is_dropped "90210" "1234" eq_refl eq_refl eq_refl).
Defined.

Lemma occurs_before_sep (sep : ascii) (s : string) :
  occurs sep (before_sep sep s) = false.
Proof.
  induction s as [|c s IH]; simpl; [reflexivity|].
  destruct (Ascii.eqb c sep) eqn:E; simpl; [reflexivity|].
  now rewrite E, IH.
Qed.

Lemma occurs_trimStart (c : ascii) (s : string) :
  occurs c s = false -> occurs c (JS.trimStart s) = false.
Proof.
  induction s as [|x s IH]; simpl; [auto|].
  intros H. apply orb_false_iff in H; destruct H as [Hx H].
  destruct (JS.is_ws x); [auto|]. simpl. now rewrite Hx, H.
Qed.

Lemma occurs_trimEnd (c : ascii) (s : string) :
  occurs c s = false -> occurs c (JS.trimEnd s) = false.
Proof.
  induction s as [|x s IH]; simpl; [auto|].
  intros H. apply orb_false_iff in H; destruct H as [Hx H].
  specialize (IH H). destruct (JS.trimEnd s) as [|y t].
  - destruct (JS.is_ws x); simpl; [reflexivity|now rewrite Hx].
  - change (occurs c (String x (String y t)))
      with (Ascii.eqb x c || occurs c (String y t)).
    now rewrite Hx, IH.
Qed.

Lemma occurs_trim (c : ascii) (s : string) :
  occurs c s = false -> occurs c (JS.trim s) = false.
Proof. intros H. now apply occurs_trimEnd, occurs_trimStart. Qed.

Lemma upper_char_comma (x : ascii) :
  Ascii.eqb (JS.upper_char x) "," = Ascii.eqb x ",".
Proof. destruct x as [[] [] [] [] [] [] [] []]; reflexivity. Qed.

Lemma occurs_comma_upper (s : string) :
  occurs "," (JS.toUpperCase s) = occurs "," s.
Proof.
  induction s as [|x s IH]; simpl; [reflexivity|].
  now rewrite upper_char_comma, IH.
Qed.

Lemma occurs_slice0 (c : ascii) (n : nat) (s : string) :
  occurs c s = false -> occurs c (JS.slice0 n s) = false.
Proof.
  revert s; induction n as [|n IH]; intros [|x s] H; simpl; auto.
  simpl in H. apply orb_false_iff in H; destruct H as [Hx H].
  now rewrite Hx, IH.
Qed.

(** X8: the city and the state of a parsed location never hold a comma,
    whatever the input. *)
Theorem X8_city_and_state_hold_no_comma (v : option string) :
  (forall c, loc_city (parseLocation v) = Some c -> occurs "," c = false) /\
  (forall s, loc_state (parseLocation v) = Some s -> occurs "," s = false).
Proof.
  destruct (parseLocation_cases v)
    as [[_ E]|[(i & _ & Z & E)|(i & _ & Z & E)]]; rewrite E;
    cbn [loc_city loc_state]; try (split; discriminate).
  split.
  - assert (O : occurs "," (city_piece (JS.trim i)) = false)
      by (unfold city_piece; apply occurs_trim, occurs_before_sep).
    revert O. generalize (city_piece (JS.trim i)).
    intros x O c H. apply or_null_some in H. destruct H as [H _].
    now injection H as <-.
  - assert (O : occurs ","
                 (JS.slice0 2 (JS.toUpperCase (state_piece (JS.trim i))))
               = false).
    { apply occurs_slice0. rewrite occurs_comma_upper. unfold state_piece.
      destruct (after_sep "," (JS.trim i)); [|reflexivity].
      apply occurs_trim, occurs_before_sep. }
    revert O.
    generalize (JS.slice0 2 (JS.toUpperCase (state_piece (JS.trim i)))).
    intros x O s H. apply or_null_some in H. destruct H as [H _].
    now injection H as <-.
Qed.

(** ** The bound parameters *)

Lemma parseLocation_trim (s : string) :
  JS.trim s <> EmptyString ->
  parseLocation (Some (JS.trim s)) = parseLocation (Some s).
Proof.
  intros N.
  assert (T : forall t, t <> EmptyString -> JS.truthy (Some t) = true)
    by (intros [|c t] H; [now elim H|reflexivity]).
  assert (Ns : s <> EmptyString) by (intros ->; now apply N).
  destruct (zip_shape (JS.trim s)) eqn:Z.
  - rewrite !parseLocation_zip; rewrite ?trim_idem; auto.
  - rewrite !parseLocation_nonzip; rewrite ?trim_idem; auto.
Qed.

Lemma parseLocation_blank (s : string) :
  JS.trim s = EmptyString ->
  parseLocation (Some s) = LocNone \/
  parseLocation (Some s) = LocCityState None None.
Proof.
  intros E. destruct s as [|c s]; [now left|]. right.
  rewrite parseLocation_nonzip; rewrite ?E; reflexivity.
Qed.

(** X9: white space around the location never changes the filter: the
    trimmed location gives the same bound parameters, and a location that
    is empty or only white space gives the same as no location at all. *)
Theorem X9_filter_ignores_space_around_location
    (q category limit : option string) (s : string) :
  build (mkRawQuery q category (Some (JS.trim s)) limit) =
    build (mkRawQuery q category (Some s) limit) /\
  (JS.trim s = EmptyString ->
   build (mkRawQuery q category (Some s) limit) =
     build (mkRawQuery q category None limit)).
Proof.
  assert (B : JS.trim s = EmptyString ->
              build (mkRawQuery q category (Some s) limit) =
              build (mkRawQuery q category None limit)).
  { intros E. unfold build. cbn [rq_location rq_limit rq_category rq_q].
    destruct (parseLocation_blank s E) as [-> | ->]; reflexivity. }
  split; [|exact B].
  destruct (JS.trim s) as [|c t] eqn:E.
  - rewrite (B eq_refl). reflexivity.
  - clear B. unfold build. cbn [rq_location rq_limit rq_category rq_q].
    rewrite <- E, parseLocation_trim; [reflexivity|].
    rewrite E; discriminate.
Qed.

(** ** [parseInt] and the limit *)

Lemma read_digits_numeral (d : Decimal.uint) :
  forall (seen : bool) (acc : Z),
    JS.read_digits 10 seen acc (NilEmpty.string_of_uint d) =
    match d with
    | Decimal.Nil => if seen then Some acc else None
    | _ => Some (numeral_value acc d)
    end.
Proof.
  induction d; intros seen acc; [reflexivity|..];
    cbn [NilEmpty.string_of_uint JS.read_digits];
    match goal with
    | |- match ?x with _ => _ end = _ => change x with (Some 0)
                                         || change x with (Some 1)
                                         || change x with (Some 2)
                                         || change x with (Some 3)
                                         || change x with (Some 4)
                                         || change x with (Some 5)
                                         || change x with (Some 6)
                                         || change x with (Some 7)
                                         || change x with (Some 8)
                                         || change x with (Some 9)
    end;
    cbv iota; rewrite IHd; now destruct d.
Qed.

Lemma of_uint_acc_numeral (d : Decimal.uint) :
  forall acc : positive,
    Z.pos (Pos.of_uint_acc d acc) = numeral_value (Z.pos acc) d.
Proof.
  induction d; intros acc; cbn [Pos.of_uint_acc numeral_value];
    [reflexivity|..]; rewrite IHd; f_equal; lia.
Qed.

Lemma of_uint_numeral (d : Decimal.uint) :
  Z.of_N (Pos.of_uint d) = numeral_value 0 d.
Proof.
  induction d; cbn [Pos.of_uint numeral_value]; [reflexivity|exact IHd|..];
    cbn [Z.of_N]; rewrite of_uint_acc_numeral; reflexivity.
Qed.

Lemma parseInt_numeral (d : Decimal.uint) :
  d <> Decimal.Nil ->
  JS.parseInt (NilEmpty.string_of_uint d) = Some (numeral_value 0 d).
Proof.
  intros N. unfold JS.parseInt.
  pose proof (read_digits_numeral d false 0) as R.
  destruct d as [|d'|d'|d'|d'|d'|d'|d'|d'|d'|d']; [now elim N|..];
    try (cbn [NilEmpty.string_of_uint JS.trimStart] in *;
         match goal with
         | |- context [JS.is_ws ?c] => change (JS.is_ws c) with false
         end;
         cbn [JS.strip_sign JS.strip_hex_prefix];
         rewrite R; now rewrite Z.mul_1_l).
  destruct d'; cbn [NilEmpty.string_of_uint JS.trimStart] in *;
    change (JS.is_ws "0") with false;
    cbn [JS.strip_sign JS.strip_hex_prefix];
    rewrite R; now rewrite Z.mul_1_l.
Qed.

Lemma to_uint_nonnil (m : N) : N.to_uint m <> Decimal.Nil.
Proof.
  destruct m as [|p]; [discriminate|].
  apply DecimalPos.Unsigned.to_uint_nonnil.
Qed.

Lemma parseInt_index (n : Z) :
  0 <= n -> JS.parseInt (JS.string_of_index n) = Some n.
Proof.
  intros H. unfold JS.string_of_index, NilZero.string_of_uint.
  pose proof (to_uint_nonnil (Z.to_N n)) as N.
  pose proof (DecimalN.Unsigned.of_to (Z.to_N n)) as O.
  unfold N.of_uint in O.
  destruct (N.to_uint (Z.to_N n)) eqn:E; [now elim N|..];
    rewrite parseInt_numeral by discriminate;
    rewrite <- of_uint_numeral, O; f_equal; lia.
Qed.

(** X10: a limit written in decimal is read back as the number it
    denotes, and it is honoured up to 200: for every number from 0 to
    2^53, [parseInt] of its decimal text is the number, and the limit is
    the number itself from 1 to 200, 200 above that, and the default 20
    for 0. *)
Theorem X10_decimal_limit_is_honoured (n : Z) :
  0 <= n <= 9007199254740992 ->
  JS.parseInt (JS.string_of_index n) = Some n /\
  lim_of (Some (JS.string_of_index n)) =
    (if n =? 0 then 20 else Z.min n 200).
Proof.
  intros [L U].
  assert (P := parseInt_index n L).
  split; [exact P|].
  unfold lim_of. rewrite P.
  destruct n as [|p|p]; [reflexivity| |lia].
  cbn [num_or Z.eqb]. lia.
Qed.

Lemma X10_decimal_limit_is_honoured_witness :
  (JS.parseInt "150" = Some 150 /\ lim_of (Some "150") = 150) /\
  (JS.parseInt "1000" = Some 1000 /\ lim_of (Some "1000") = 200).
Proof.
  split.
  - apply (X10_decimal_limit_is_honoured 150). lia.
  - apply (X10_decimal_limit_is_honoured 1000). lia.
Defined.

Lemma trimEnd_cons (c : ascii) (t : string) :
  JS.trimEnd (String c t) =
  if JS.is_ws c && is_empty (JS.trimEnd t) then EmptyString
  else String c (JS.trimEnd t).
Proof. simpl. destruct (JS.trimEnd t), (JS.is_ws c); reflexivity. Qed.

Lemma digit_value_not_ws (radix : Z) (c : ascii) (d : Z) :
  JS.digit_value radix c = Some d -> JS.is_ws c = false.
Proof.
  intros H.
  destruct c as [[] [] [] [] [] [] [] []];
    first [reflexivity | discriminate H].
Qed.

Lemma read_digits_trimEnd (radix : Z) (t : string) :
  forall (seen : bool) (acc : Z),
    JS.read_digits radix seen acc (JS.trimEnd t) =
    JS.read_digits radix seen acc t.
Proof.
  induction t as [|c t IH]; intros seen acc; [reflexivity|].
  rewrite trimEnd_cons. cbn [JS.read_digits].
  destruct (JS.digit_value radix c) as [d|] eqn:D.
  - rewrite (digit_value_not_ws _ _ _ D). cbn [andb JS.read_digits].
    rewrite D. apply IH.
  - destruct (JS.is_ws c && is_empty (JS.trimEnd t));
      cbn [JS.read_digits]; now rewrite ?D.
Qed.

Lemma strip_sign_trimEnd (w : string) :
  JS.strip_sign (JS.trimEnd w) =
  (fst (JS.strip_sign w), JS.trimEnd (snd (JS.strip_sign w))).
Proof.
  destruct w as [|c t]; [reflexivity|].
  rewrite trimEnd_cons.
  destruct c as [[] [] [] [] [] [] [] []];
    try (cbn [JS.strip_sign fst snd]; rewrite trimEnd_cons;
         now destruct (_ && _));
    reflexivity.
Qed.

Lemma strip_hex_prefix_trimEnd (w : string) :
  JS.strip_hex_prefix (JS.trimEnd w) =
  (fst (JS.strip_hex_prefix w), JS.trimEnd (snd (JS.strip_hex_prefix w))).
Proof.
  destruct w as [|c t]; [reflexivity|].
  rewrite trimEnd_cons.
  destruct c as [[] [] [] [] [] [] [] []];
    try (cbn [JS.strip_hex_prefix fst snd]; rewrite trimEnd_cons;
         now destruct (_ && _)).
  change (JS.is_ws "0") with false. cbn [andb].
  destruct t as [|c' t']; [reflexivity|].
  rewrite trimEnd_cons.
  destruct c' as [[] [] [] [] [] [] [] []];
    try reflexivity;
    try (cbn [JS.strip_hex_prefix fst snd];
         rewrite !trimEnd_cons; change (JS.is_ws "0") with false;
         cbn [andb]; first [reflexivity | now destruct (_ && _)]).
Qed.

Lemma parseInt_trim (s : string) : JS.parseInt (JS.trim s) = JS.parseInt s.
Proof.
  unfold JS.parseInt.
  assert (E : JS.trimStart (JS.trim s) = JS.trimEnd (JS.trimStart s)).
  { unfold JS.trim.
    destruct (trimStart_shape s) as [-> | (c & t & -> & W)]; [reflexivity|].
    destruct (trimEnd_head c t W) as [t' ->]. now apply trimStart_fixed. }
  rewrite E, strip_sign_trimEnd.
  destruct (JS.strip_sign (JS.trimStart s)) as [sign s1]. cbn [fst snd].
  rewrite strip_hex_prefix_trimEnd.
  destruct (JS.strip_hex_prefix s1) as [radix s2]. cbn [fst snd].
  now rewrite read_digits_trimEnd.
Qed.

(** X11: white space around the limit text is ignored: the trimmed text
    gives the same limit. *)
Theorem X11_limit_ignores_surrounding_space (s : string) :
  lim_of (Some (JS.trim s)) = lim_of (Some s).
Proof. unfold lim_of. now rewrite parseInt_trim. Qed.

(** ** The types declared for the parameters *)

Lemma parsed_lengths (input : option string) :
  (forall s, loc_state (parseLocation input) = Some s ->
     (String.length s <= 2)%nat) /\
  (forall z, loc_zip5 (parseLocation input) = Some z -> five_digits z = true).
Proof.
  destruct (parseLocation_cases input)
    as [[_ E]|[(s & _ & Z & E)|(s & _ & Z & E)]]; rewrite E;
    cbn [loc_zip5 loc_state].
  - split; discriminate.
  - split; [discriminate|].
    intros z H; injection H as <-. now apply zip_shape_five_digits.
  - split; [|discriminate].
    pose proof (slice0_length 2
                  (JS.toUpperCase (state_piece (JS.trim s)))) as L.
    revert L.
    generalize (JS.slice0 2 (JS.toUpperCase (state_piece (JS.trim s)))).
    intros x L st H. apply or_null_some in H. destruct H as [H _].
    now injection H as <-.
Qed.

(** X12: the zip5 and the state that are bound always fit the lengths
    declared for them, 5 and 2 characters, and the limit is within the
    range of the integer type declared for it; nothing the handler binds
    for these three parameters can be cut or overflow. *)
Theorem X12_bound_values_fit_declared_types (rq : RawQuery) :
  fits zip5_declared_length (fs_zip5 (build rq)) = true /\
  fits state_declared_length (fs_state (build rq)) = true /\
  sql_Int_min <= fs_limit (build rq) <= sql_Int_max.
Proof.
  cbn [build fs_zip5 fs_state fs_limit].
  destruct (parsed_lengths (rq_location rq)) as (A & B).
  split; [|split].
  - destruct (JS.or_null (loc_zip5 (parseLocation (rq_location rq))))
      as [z|] eqn:E; [|reflexivity].
    apply or_null_some in E. destruct E as [E _].
    specialize (B z E). unfold five_digits in B.
    apply andb_true_iff in B. destruct B as [B _].
    apply Nat.eqb_eq in B. cbn [fits]. rewrite B. reflexivity.
  - destruct (JS.or_null (loc_state (parseLocation (rq_location rq))))
      as [s|] eqn:E; [|reflexivity].
    apply or_null_some in E. destruct E as [E _].
    specialize (A s E). cbn [fits]. apply Nat.leb_le.
    unfold state_declared_length. lia.
  - unfold sql_Int_min, sql_Int_max, lim_of. lia.
Qed.

(** ** The formatted items *)

Lemma or_str_nonempty (v : option string) (d : string) :
  d <> EmptyString -> JS.or_str v d <> EmptyString.
Proof. destruct v as [[|c s]|]; simpl; auto; discriminate. Qed.

Lemma app_nonempty_l (a b : string) :
  a <> EmptyString -> a ++ b <> EmptyString.
Proof. destruct a; [tauto|discriminate]. Qed.

(** X13: every formatted item, however sparse its record, has a non-empty
    title and a non-empty summary, and its latitude and longitude texts
    carry no white space at either end. *)
Theorem X13_items_have_title_and_summary {number : Type}
    (str : number -> string) (r : ProviderRecord number) (idx : nat) :
  title (format_item str r idx) <> EmptyString /\
  summary (format_item str r idx) <> EmptyString /\
  JS.trim (latitude (format_item str r idx)) =
    latitude (format_item str r idx) /\
  JS.trim (longitude (format_item str r idx)) =
    longitude (format_item str r idx).
Proof.
  cbn [title summary latitude longitude format_item].
  split; [apply or_str_nonempty; discriminate|].
  split; [apply app_nonempty_l, or_str_nonempty; discriminate|].
  split; apply trim_idem.
Qed.

Lemma string_app_inj_l (p x y : string) : p ++ x = p ++ y -> x = y.
Proof.
  induction p as [|c p IH]; simpl; [auto|].
  intros H. injection H as H. now apply IH.
Qed.

Lemma facility_url_inj (a b : nat) : facility_url a = facility_url b -> a = b.
Proof.
  unfold facility_url. intros H. apply string_app_inj_l in H.
  apply (f_equal JS.parseInt) in H.
  rewrite !parseInt_index in H by lia.
  injection H as H. lia.
Qed.

Lemma map_index_urls {number : Type} (str : number -> string)
    (l : list (ProviderRecord number)) :
  forall i : nat,
    map url (map_index (format_item str) i l) =
    map facility_url (seq i (List.length l)).
Proof.
  induction l as [|r l IH]; intros i; simpl; [reflexivity|].
  now rewrite IH.
Qed.

(** X14: within one response the detail urls are pairwise distinct: no two
    items share a url. *)
Theorem X14_urls_are_distinct {number : Type} (str : number -> string)
    (recordset : option (list (ProviderRecord number))) :
  NoDup (map url (format_items str recordset)).
Proof.
  unfold format_items. rewrite map_index_urls.
  apply Injective_map_NoDup; [|apply seq_NoDup].
  intros a b. apply facility_url_inj.
Qed.

(** ** Letter case in a location *)

Lemma upper_char_ws (c : ascii) : JS.is_ws (JS.upper_char c) = JS.is_ws c.
Proof. destruct c as [[] [] [] [] [] [] [] []]; reflexivity. Qed.

Lemma upper_char_digit (c : ascii) :
  JS.is_digit (JS.upper_char c) = JS.is_digit c.
Proof. destruct c as [[] [] [] [] [] [] [] []]; reflexivity. Qed.

Lemma upper_char_dash (c : ascii) :
  Ascii.eqb "-" (JS.upper_char c) = Ascii.eqb "-" c.
Proof. destruct c as [[] [] [] [] [] [] [] []]; reflexivity. Qed.

Lemma upper_char_idem (c : ascii) :
  JS.upper_char (JS.upper_char c) = JS.upper_char c.
Proof. destruct c as [[] [] [] [] [] [] [] []]; reflexivity. Qed.

Lemma upper_char_of_digit (c : ascii) :
  JS.is_digit c = true -> JS.upper_char c = c.
Proof.
  destruct c as [[] [] [] [] [] [] [] []]; intros H;
    first [reflexivity | discriminate H].
Qed.

Lemma toUpperCase_idem (s : string) :
  JS.toUpperCase (JS.toUpperCase s) = JS.toUpperCase s.
Proof.
  induction s as [|c s IH]; simpl; [reflexivity|].
  now rewrite upper_char_idem, IH.
Qed.

Lemma toUpperCase_digits (s : string) :
  all_digits s = true -> JS.toUpperCase s = s.
Proof.
  induction s as [|c s IH]; simpl; [reflexivity|].
  intros H. apply andb_true_iff in H; destruct H as [Hc H].
  now rewrite (upper_char_of_digit c Hc), IH.
Qed.

Lemma trimStart_upper (s : string) :
  JS.trimStart (JS.toUpperCase s) = JS.toUpperCase (JS.trimStart s).
Proof.
  induction s as [|c s IH]; simpl; [reflexivity|].
  rewrite upper_char_ws. now destruct (JS.is_ws c).
Qed.

Lemma trimEnd_upper (s : string) :
  JS.trimEnd (JS.toUpperCase s) = JS.toUpperCase (JS.trimEnd s).
Proof.
  induction s as [|c s IH]; [reflexivity|].
  cbn [JS.toUpperCase]. rewrite !trimEnd_cons, IH, upper_char_ws.
  destruct (JS.trimEnd s), (JS.is_ws c); reflexivity.
Qed.

Lemma trim_upper (s : string) :
  JS.trim (JS.toUpperCase s) = JS.toUpperCase (JS.trim s).
Proof. unfold JS.trim. now rewrite trimStart_upper, trimEnd_upper. Qed.

Lemma before_sep_upper (s : string) :
  before_sep "," (JS.toUpperCase s) = JS.toUpperCase (before_sep "," s).
Proof.
  induction s as [|c s IH]; simpl; [reflexivity|].
  rewrite upper_char_comma. destruct (Ascii.eqb c ","); simpl; congruence.
Qed.

Lemma after_sep_upper (s : string) :
  after_sep "," (JS.toUpperCase s) =
  option_map JS.toUpperCase (after_sep "," s).
Proof.
  induction s as [|c s IH]; simpl; [reflexivity|].
  rewrite upper_char_comma. now destruct (Ascii.eqb c ",").
Qed.

Lemma digits_then_upper (n : nat) (k : string -> bool) :
  (forall r, k (JS.toUpperCase r) = k r) ->
  forall s, digits_then n k (JS.toUpperCase s) = digits_then n k s.
Proof.
  intros K. induction n as [|n IH]; intros s; [apply K|].
  destruct s as [|c s]; [reflexivity|].
  simpl. now rewrite upper_char_digit, IH.
Qed.

Lemma zip_shape_upper (s : string) :
  zip_shape (JS.toUpperCase s) = zip_shape s.
Proof.
  unfold zip_shape. apply digits_then_upper.
  intros [|c r]; [reflexivity|].
  cbn [JS.toUpperCase]. rewrite upper_char_dash. f_equal.
  apply digits_then_upper. now intros [|x y].
Qed.

Lemma slice0_upper (n : nat) (s : string) :
  JS.slice0 n (JS.toUpperCase s) = JS.toUpperCase (JS.slice0 n s).
Proof.
  revert s; induction n as [|n IH]; intros [|c s]; simpl; try reflexivity.
  now rewrite IH.
Qed.

Lemma or_null_upper (x : string) :
  JS.or_null (Some (JS.toUpperCase x)) =
  option_map JS.toUpperCase (JS.or_null (Some x)).
Proof. now destruct x. Qed.

Lemma state_piece_upper (raw : string) :
  state_piece (JS.toUpperCase raw) = JS.toUpperCase (state_piece raw).
Proof.
  unfold state_piece. rewrite after_sep_upper.
  destruct (after_sep "," raw); [|reflexivity].
  cbn [option_map]. now rewrite before_sep_upper, trim_upper.
Qed.

(** X15: letter case does not matter for the state or the zip5 of a
    location: the upper-cased input gives the same state and the same
    zip5, and the city of the upper-cased input is the upper-cased city.
    Hence two locations that differ only in letter case have the same
    state. *)
Theorem X15_state_ignores_letter_case (s : string) :
  loc_state (parseLocation (Some (JS.toUpperCase s))) =
    loc_state (parseLocation (Some s)) /\
  loc_zip5 (parseLocation (Some (JS.toUpperCase s))) =
    loc_zip5 (parseLocation (Some s)) /\
  loc_city (parseLocation (Some (JS.toUpperCase s))) =
    option_map JS.toUpperCase (loc_city (parseLocation (Some s))) /\
  (forall t, JS.toUpperCase t = JS.toUpperCase s ->
     loc_state (parseLocation (Some t)) = loc_state (parseLocation (Some s))).
Proof.
  assert (A : forall u,
    loc_state (parseLocation (Some (JS.toUpperCase u))) =
      loc_state (parseLocation (Some u)) /\
    loc_zip5 (parseLocation (Some (JS.toUpperCase u))) =
      loc_zip5 (parseLocation (Some u)) /\
    loc_city (parseLocation (Some (JS.toUpperCase u))) =
      option_map JS.toUpperCase (loc_city (parseLocation (Some u)))).
  { intros u. destruct u as [|c u]; [now repeat split|].
    destruct (zip_shape (JS.trim (String c u))) eqn:Z.
    - rewrite !parseLocation_zip;
        rewrite ?trim_upper, ?zip_shape_upper; auto.
      cbn [loc_state loc_zip5 loc_city option_map].
      repeat split. f_equal. rewrite slice0_upper.
      apply toUpperCase_digits.
      pose proof (zip_shape_five_digits _ Z) as F.
      unfold five_digits in F. apply andb_true_iff in F. tauto.
    - rewrite !parseLocation_nonzip;
        rewrite ?trim_upper, ?zip_shape_upper; auto.
      cbn [loc_state loc_zip5 loc_city].
      rewrite state_piece_upper, toUpperCase_idem.
      repeat split. unfold city_piece.
      now rewrite before_sep_upper, trim_upper, or_null_upper. }
  destruct (A s) as (A1 & A2 & A3).
  repeat split; auto.
  intros t E. rewrite <- (proj1 (A t)), E. exact A1.
Qed.
